(** * Amenities search: the query filter of [script.js]

    A shallow embedding of [filterAndDisplayFeatures] and of the event
    wiring around it, followed by the properties of the query
    interpretation, of the feature filter and of the displayed state.

    Strings are sequences of code units; the development covers the code
    units below 256 (Rocq's [ascii], read as Latin-1), on which
    [String.prototype.toLowerCase] and the [\s] class are the finite
    tables written out below.  Coordinates and opacities are decimal
    literals and are kept as rationals. *)

From Stdlib Require Import Bool Arith NArith ZArith QArith Lia List.
From Stdlib Require Import Ascii String.
Import ListNotations.

Local Open Scope string_scope.
Local Open Scope bool_scope.

(* ===================================================================== *)
(** ** Strings *)
(* ===================================================================== *)

Module JsString.

(** Code unit of a character. *)
Definition code (c : ascii) : N := N_of_ascii c.

(** [toLowerCase] on one Latin-1 code unit: A-Z and the accented capitals
    U+00C0..U+00DE (without the multiplication sign U+00D7) move up by
    32, everything else is left alone. *)
Definition lower_char (c : ascii) : ascii :=
  let n := code c in
  if ((65 <=? n) && (n <=? 90))%N
     || ((192 <=? n) && (n <=? 222) && negb (n =? 215))%N
  then ascii_of_N (n + 32)
  else c.

(** [s.toLowerCase()] *)
Fixpoint toLowerCase (s : string) : string :=
  match s with
  | EmptyString => EmptyString
  | String c s' => String (lower_char c) (toLowerCase s')
  end.

(** The characters of the regular expression class [\s] below U+0100:
    TAB, LF, VT, FF, CR, SPACE and NO-BREAK SPACE. *)
Definition is_whitespace (c : ascii) : bool :=
  let n := code c in
  ((9 <=? n) && (n <=? 13))%N || (n =? 32)%N || (n =? 160)%N.

(** The characters of the class [\w]: letters, digits and underscore. *)
Definition is_word_char (c : ascii) : bool :=
  let n := code c in
  ((48 <=? n) && (n <=? 57))%N || ((65 <=? n) && (n <=? 90))%N
  || ((97 <=? n) && (n <=? 122))%N || (n =? 95)%N.

Fixpoint all_chars (p : ascii -> bool) (s : string) : bool :=
  match s with
  | EmptyString => true
  | String c s' => p c && all_chars p s'
  end.

(** [prefix p s]: does [s] start with [p]? *)
Fixpoint starts_with (p s : string) : bool :=
  match p, s with
  | EmptyString, _ => true
  | String a p', String b s' => Ascii.eqb a b && starts_with p' s'
  | String _ _, EmptyString => false
  end.

(** [hay.indexOf(needle)]: position of the first occurrence, or -1. *)
Fixpoint indexOf_from (needle hay : string) (pos : Z) : Z :=
  if starts_with needle hay then pos
  else match hay with
       | EmptyString => (-1)%Z
       | String _ hay' => indexOf_from needle hay' (pos + 1)%Z
       end.

Definition indexOf (hay needle : string) : Z := indexOf_from needle hay 0%Z.

(** [w] occurs in [s] as a contiguous run of characters. *)
Definition Substring (w s : string) : Prop :=
  exists pre post, s = pre ++ w ++ post.

(** JavaScript truthiness of a string: only the empty string is falsy. *)
Definition truthy (s : string) : bool :=
  match s with EmptyString => false | String _ _ => true end.

End JsString.
Import JsString.

(* ===================================================================== *)
(** ** Regular expressions *)
(* ===================================================================== *)

Module RegExp.

(** The pattern syntax used by the three literals of the script. *)
Inductive regex : Type :=
| RFail                              (* matches nothing *)
| REps                               (* the empty pattern *)
| RChar (c : ascii)                  (* a literal character *)
| RClass (p : ascii -> bool)         (* a character class *)
| RSeq (r1 r2 : regex)               (* r1r2 *)
| RAlt (r1 r2 : regex)               (* r1|r2 *)
| RStar (r : regex).                 (* r* *)

(** [r?] *)
Definition ROpt (r : regex) : regex := RAlt r REps.
(** [r+] *)
Definition RPlus (r : regex) : regex := RSeq r (RStar r).
(** [(r)]: a capture group matches what its body matches. *)
Definition RGroup (r : regex) : regex := r.
(** [\s] *)
Definition RSpace : regex := RClass is_whitespace.

(** A run of literal characters. *)
Fixpoint RLit (s : string) : regex :=
  match s with
  | EmptyString => REps
  | String c s' => RSeq (RChar c) (RLit s')
  end.

(** Can the pattern match the empty string? *)
Fixpoint nullable (r : regex) : bool :=
  match r with
  | RFail => false
  | REps => true
  | RChar _ => false
  | RClass _ => false
  | RSeq r1 r2 => nullable r1 && nullable r2
  | RAlt r1 r2 => nullable r1 || nullable r2
  | RStar _ => true
  end.

(** What is left of the pattern after it has consumed [c]. *)
Fixpoint deriv (c : ascii) (r : regex) : regex :=
  match r with
  | RFail => RFail
  | REps => RFail
  | RChar d => if Ascii.eqb c d then REps else RFail
  | RClass p => if p c then REps else RFail
  | RSeq r1 r2 =>
      if nullable r1
      then RAlt (RSeq (deriv c r1) r2) (deriv c r2)
      else RSeq (deriv c r1) r2
  | RAlt r1 r2 => RAlt (deriv c r1) (deriv c r2)
  | RStar r1 => RSeq (deriv c r1) (RStar r1)
  end.

(** Does the pattern match some prefix of [s]? *)
Fixpoint match_here (r : regex) (s : string) : bool :=
  nullable r
  || match s with
     | EmptyString => false
     | String c s' => match_here (deriv c r) s'
     end.

(** [r.test(s)] for a pattern without flags: try every start position
    from the left. *)
Fixpoint test (r : regex) (s : string) : bool :=
  match_here r s
  || match s with
     | EmptyString => false
     | String _ s' => test r s'
     end.

(** The language of a pattern, independently of the matcher. *)
Inductive Matches : regex -> string -> Prop :=
| MEps : Matches REps ""
| MChar c : Matches (RChar c) (String c "")
| MClass p c : p c = true -> Matches (RClass p) (String c "")
| MSeq r1 r2 s1 s2 :
    Matches r1 s1 -> Matches r2 s2 -> Matches (RSeq r1 r2) (s1 ++ s2)
| MAltL r1 r2 s : Matches r1 s -> Matches (RAlt r1 r2) s
| MAltR r1 r2 s : Matches r2 s -> Matches (RAlt r1 r2) s
| MStarNil r : Matches (RStar r) ""
| MStarCons r s1 s2 :
    Matches r s1 -> Matches (RStar r) s2 -> Matches (RStar r) (s1 ++ s2).

(** The pattern matches somewhere inside [s]. *)
Definition Found (r : regex) (s : string) : Prop :=
  exists pre m post, s = pre ++ m ++ post /\ Matches r m.

End RegExp.
Import RegExp.

(* ===================================================================== *)
(** ** Data model *)
(* ===================================================================== *)

(** A property that may be missing ([undefined]), [null] or a text. *)
Inductive JsText : Type :=
| JsUndefined
| JsNull
| JsString (s : string).

Record LatLng : Type := mkLatLng { lat : Q; lng : Q }.

Record Properties : Type := mkProperties {
  name : string;
  amenity_type : string;
  area : JsText
}.

(** A GeoJSON point feature; [coordinates] is [[longitude, latitude]]. *)
Record Feature : Type := mkFeature {
  coordinates : Q * Q;
  properties : Properties
}.

Record FeatureCollection : Type := mkFeatureCollection {
  type : string;
  features : list Feature
}.

(** The two filters computed from the query: [null] or a string. *)
Record QueryFilter : Type := mkQueryFilter {
  amenityFilter : option string;
  locationFilter : option string
}.

(** Options of [L.circleMarker]. *)
Record PathOptions : Type := mkPathOptions {
  radius : Z;
  fillColor : string;
  color : string;
  weight : Z;
  opacity : Z;
  fillOpacity : Q
}.

Record CircleMarker : Type := mkCircleMarker {
  marker_latlng : LatLng;
  options : PathOptions;
  popup : option string
}.

(** A layer made by [L.geoJSON]; [stamp] is the identity of the object. *)
Record GeoJSONLayer : Type := mkGeoJSONLayer {
  stamp : nat;
  markers : list CircleMarker
}.

(** What the map shows: a centre and zoom, or the bounds of some points
    with a padding. *)
Inductive View : Type :=
| ViewAt (center : LatLng) (zoom : Z)
| ViewBounds (points : list LatLng) (padding : Z * Z).

Record LeafletMap : Type := mkLeafletMap {
  layers : list GeoJSONLayer;
  view : View
}.

(** The globals of the script together with the page around it. *)
Record World : Type := mkWorld {
  allAmenitiesData : option FeatureCollection;
  currentLayer : option GeoJSONLayer;
  leaflet_map : LeafletMap;
  alerts : list string;
  console : list string;
  next_stamp : nat
}.

Inductive Exn : Type :=
| TypeError (msg : string).

(** Result of evaluating an expression: a value or a thrown exception. *)
Inductive Completion (A : Type) : Type :=
| Normal (a : A)
| Abrupt (e : Exn).
Arguments Normal {A} a.
Arguments Abrupt {A} e.

Definition cbind {A B : Type} (m : Completion A) (k : A -> Completion B)
  : Completion B :=
  match m with
  | Normal a => k a
  | Abrupt e => Abrupt e
  end.

(** Result of running a statement on the globals. *)
Inductive Outcome (A : Type) : Type :=
| Ret (a : A) (w : World)
| Throw (e : Exn) (w : World).
Arguments Ret {A} a w.
Arguments Throw {A} e w.

Definition M (A : Type) : Type := World -> Outcome A.

Definition ret {A : Type} (a : A) : M A := fun w => Ret a w.

Definition bind {A B : Type} (m : M A) (k : A -> M B) : M B :=
  fun w =>
    match m w with
    | Ret a w' => k a w'
    | Throw e w' => Throw e w'
    end.

Definition lift {A : Type} (c : Completion A) : M A :=
  fun w =>
    match c with
    | Normal a => Ret a w
    | Abrupt e => Throw e w
    end.

Declare Scope js_scope.
Delimit Scope js_scope with js.
Notation "x <- m ;; k" := (bind m (fun x => k))
  (at level 61, m at next level, right associativity) : js_scope.
Notation "m ;; k" := (bind m (fun _ => k))
  (at level 61, right associativity) : js_scope.
Notation "x <~ c ;; k" := (cbind c (fun x => k))
  (at level 61, c at next level, right associativity) : js_scope.

(* ===================================================================== *)
(** ** The script *)
(* ===================================================================== *)

Definition ABU_DHABI_CENTER : LatLng := mkLatLng 24.47 54.37.
Definition INITIAL_ZOOM : Z := 12.

Definition NO_RESULTS_NOTICE : string := "No results found for your query.".
Definition LOAD_FAILED_NOTICE : string := "Could not load amenity data.".
Definition LOAD_FAILED_LOG : string := "Error loading GeoJSON data:".

(** The three pattern literals. *)
(** [/(parks?)/] *)
Definition re_park : regex :=
  RGroup (RSeq (RLit "park") (ROpt (RChar "s"))).
(** [/(hospitals?|clinics?)/] *)
Definition re_hospital : regex :=
  RGroup (RAlt (RSeq (RLit "hospital") (ROpt (RChar "s")))
               (RSeq (RLit "clinic") (ROpt (RChar "s")))).
(** [/(near|at|in)\s+(corniche)/] *)
Definition re_location : regex :=
  RSeq (RGroup (RAlt (RLit "near") (RAlt (RLit "at") (RLit "in"))))
       (RSeq (RPlus RSpace) (RGroup (RLit "corniche"))).

(** Truthiness of a variable that holds [null] or a string. *)
Definition truthy_filter (f : option string) : bool :=
  match f with
  | None => false
  | Some s => truthy s
  end.

(** [value !== filter] for a string [value] and a filter variable. *)
Definition strict_neq (value : string) (f : option string) : bool :=
  match f with
  | None => true
  | Some s => negb (String.eqb value s)
  end.

(** The search string [indexOf] makes of its argument: [null] is turned
    into the text "null". *)
Definition search_text (f : option string) : string :=
  match f with
  | None => "null"
  | Some s => s
  end.

(** Truthiness of a property. *)
Definition truthy_text (t : JsText) : bool :=
  match t with
  | JsUndefined | JsNull => false
  | JsString s => truthy s
  end.

(** [t.toLowerCase()] on a property: a method call on [undefined] or
    [null] throws. *)
Definition call_toLowerCase (t : JsText) : Completion string :=
  match t with
  | JsString s => Normal (toLowerCase s)
  | JsUndefined =>
      Abrupt (TypeError "Cannot read properties of undefined")
  | JsNull => Abrupt (TypeError "Cannot read properties of null")
  end.

Local Open Scope js_scope.

(** Lines 47-61: the two filters read off the lowercased query. *)
Definition amenityFilter_of (lowerQuery : string) : option string :=
  if test re_park lowerQuery then Some "park"
  else if test re_hospital lowerQuery then Some "hospital"
  else None.

Definition locationFilter_of (lowerQuery : string) : option string :=
  if test re_location lowerQuery then Some "corniche"
  else None.

Definition interpretQuery (query : string) : QueryFilter :=
  let lowerQuery := toLowerCase query in
  mkQueryFilter (amenityFilter_of lowerQuery) (locationFilter_of lowerQuery).

(** Lines 64-84: the callback handed to [Array.prototype.filter]. *)
Definition filterCallback (qf : QueryFilter) (feature : Feature)
  : Completion bool :=
  let props := properties feature in
  let matched := true in
  (* Check amenity type *)
  let matched :=
    if truthy_filter (amenityFilter qf)
       && strict_neq (amenity_type props) (amenityFilter qf)
    then false else matched in
  (* Check location (optional feature) *)
  if matched && truthy_filter (locationFilter qf) then
    (* Case-insensitive check on the 'area' property *)
    miss <~ (if negb (truthy_text (area props)) then Normal true
             else lowered <~ call_toLowerCase (area props) ;;
                  Normal (indexOf lowered (search_text (locationFilter qf))
                          =? -1)%Z) ;;
    Normal (if miss then false else matched)
  else Normal matched.

(** [array.filter(callback)]: the elements on which the callback returns
    true, in array order; an exception in the callback ends the call. *)
Fixpoint array_filter {A : Type} (callback : A -> Completion bool)
  (array : list A) : Completion (list A) :=
  match array with
  | [] => Normal []
  | x :: rest =>
      keep <~ callback x ;;
      kept <~ array_filter callback rest ;;
      Normal (if keep then x :: kept else kept)
  end.

(** The Filter Evaluator: the callback run over the collection. *)
Definition filterFeatures (qf : QueryFilter) (fs : list Feature)
  : Completion (list Feature) :=
  array_filter (filterCallback qf) fs.

(** Lines 93-104: the marker drawn for a feature. *)
Definition pointToLayer (feature : Feature) (latlng : LatLng) : CircleMarker :=
  let color :=
    if String.eqb (amenity_type (properties feature)) "park"
    then "green" else "red" in
  mkCircleMarker latlng
    (mkPathOptions 8 color "#000" 1 1 0.8)
    None.

(** Lines 105-108: the popup bound to the marker. *)
Definition onEachFeature (feature : Feature) (layer : CircleMarker)
  : CircleMarker :=
  mkCircleMarker (marker_latlng layer) (options layer)
    (Some ("<b>" ++ name (properties feature) ++ "</b><br>"
           ++ amenity_type (properties feature))).

(** Leaflet reads a GeoJSON position [[lng, lat]] as a [LatLng]. *)
Definition coordsToLatLng (coords : Q * Q) : LatLng :=
  mkLatLng (snd coords) (fst coords).

(** [L.geoJSON(data, {pointToLayer, onEachFeature})]: a new layer object
    with one marker per feature. *)
Definition L_geoJSON (data : FeatureCollection) : M GeoJSONLayer :=
  fun w =>
    let layer :=
      mkGeoJSONLayer (next_stamp w)
        (List.map (fun f =>
                     onEachFeature f
                       (pointToLayer f (coordsToLatLng (coordinates f))))
                  (features data)) in
    Ret layer
        (mkWorld (allAmenitiesData w) (currentLayer w) (leaflet_map w)
                 (alerts w) (console w) (S (next_stamp w))).

Definition with_map (f : LeafletMap -> LeafletMap) : M unit :=
  fun w =>
    Ret tt (mkWorld (allAmenitiesData w) (currentLayer w)
                    (f (leaflet_map w)) (alerts w) (console w)
                    (next_stamp w)).

(** [map.removeLayer(layer)] *)
Definition map_removeLayer (layer : GeoJSONLayer) : M unit :=
  with_map (fun m =>
    mkLeafletMap
      (List.filter (fun l => negb (Nat.eqb (stamp l) (stamp layer)))
                   (layers m))
      (view m)).

(** [layer.addTo(map)] *)
Definition addTo_map (layer : GeoJSONLayer) : M unit :=
  with_map (fun m => mkLeafletMap (layers m ++ [layer]) (view m)).

(** [layer.getBounds()]: the bounds are those of the marker positions. *)
Definition getBounds (layer : GeoJSONLayer) : list LatLng :=
  List.map marker_latlng (markers layer).

(** [map.fitBounds(bounds, {padding})] *)
Definition map_fitBounds (bounds : list LatLng) (padding : Z * Z) : M unit :=
  with_map (fun m => mkLeafletMap (layers m) (ViewBounds bounds padding)).

(** [map.setView(center, zoom)] *)
Definition map_setView (center : LatLng) (zoom : Z) : M unit :=
  with_map (fun m => mkLeafletMap (layers m) (ViewAt center zoom)).

(** [alert(message)] *)
Definition alert (message : string) : M unit :=
  fun w =>
    Ret tt (mkWorld (allAmenitiesData w) (currentLayer w) (leaflet_map w)
                    (alerts w ++ [message]) (console w) (next_stamp w)).

(** [console.error(message, ...)] *)
Definition console_error (message : string) : M unit :=
  fun w =>
    Ret tt (mkWorld (allAmenitiesData w) (currentLayer w) (leaflet_map w)
                    (alerts w) (console w ++ [message]) (next_stamp w)).

Definition get_allAmenitiesData : M (option FeatureCollection) :=
  fun w => Ret (allAmenitiesData w) w.

Definition set_allAmenitiesData (data : option FeatureCollection) : M unit :=
  fun w =>
    Ret tt (mkWorld data (currentLayer w) (leaflet_map w) (alerts w)
                    (console w) (next_stamp w)).

Definition get_currentLayer : M (option GeoJSONLayer) :=
  fun w => Ret (currentLayer w) w.

Definition set_currentLayer (layer : option GeoJSONLayer) : M unit :=
  fun w =>
    Ret tt (mkWorld (allAmenitiesData w) layer (leaflet_map w) (alerts w)
                    (console w) (next_stamp w)).

(** Lines 39-119. *)
Definition filterAndDisplayFeatures (query : string) : M unit :=
  data <- get_allAmenitiesData ;;
  match data with
  | None => ret tt
  | Some allData =>
      (* Clear previous layer if it exists *)
      previous <- get_currentLayer ;;
      match previous with
      | Some layer => map_removeLayer layer
      | None => ret tt
      end ;;
      let qf := interpretQuery query in
      filteredFeatures <- lift (filterFeatures qf (features allData)) ;;
      let filteredGeoJSON :=
        mkFeatureCollection "FeatureCollection" filteredFeatures in
      layer <- L_geoJSON filteredGeoJSON ;;
      addTo_map layer ;;
      set_currentLayer (Some layer) ;;
      (* Zoom to the bounds of the results if any were found *)
      if (0 <? List.length filteredFeatures)%nat then
        map_fitBounds (getBounds layer) (50, 50)%Z
      else if negb (String.eqb query "") then
        alert NO_RESULTS_NOTICE ;;
        (* If no results, reset to default view *)
        map_setView ABU_DHABI_CENTER INITIAL_ZOOM
      else ret tt
  end.

(** What can happen on the page. *)
Inductive Event : Type :=
| FetchResolved (data : FeatureCollection)   (* the data arrived *)
| FetchRejected                              (* the load failed *)
| Click (value : string)                     (* search button *)
| Keypress (key : string) (value : string).  (* key in the search field *)

(** The [.catch] handler of the load. *)
Definition load_failed : M unit :=
  console_error LOAD_FAILED_LOG ;;
  alert LOAD_FAILED_NOTICE.

Definition world_of {A : Type} (o : Outcome A) : World :=
  match o with
  | Ret _ w => w
  | Throw _ w => w
  end.

(** One event handled to completion. An exception inside the [.then]
    callback is caught by [.catch]; one inside a listener is dropped. *)
Definition handle (ev : Event) (w : World) : World :=
  match ev with
  | FetchResolved data =>
      match (set_allAmenitiesData (Some data) ;;
             filterAndDisplayFeatures "") w with
      | Ret _ w' => w'
      | Throw _ w' => world_of (load_failed w')
      end
  | FetchRejected => world_of (load_failed w)
  | Click value => world_of (filterAndDisplayFeatures value w)
  | Keypress key value =>
      if String.eqb key "Enter"
      then world_of (filterAndDisplayFeatures value w)
      else w
  end.

Definition run (evs : list Event) (w : World) : World :=
  List.fold_left (fun w ev => handle ev w) evs w.

(** The page right after the script has run: nothing loaded, no layer,
    the map at its initial view. *)
Definition initial_world : World :=
  mkWorld None None (mkLeafletMap [] (ViewAt ABU_DHABI_CENTER INITIAL_ZOOM))
          [] [] 0.

(* ===================================================================== *)
(** ** Vocabulary of the specification *)
(* ===================================================================== *)

Module Spec.

(** The first [n] characters removed. *)
Fixpoint drop (n : nat) (s : string) : string :=
  match n, s with
  | O, _ => s
  | S n', String _ s' => drop n' s'
  | S _, EmptyString => EmptyString
  end.

(** A word boundary follows the first [n] characters of [s]: the rest
    is empty or starts with a character that is not a word character. *)
Definition boundary_after (n : nat) (s : string) : bool :=
  match drop n s with
  | EmptyString => true
  | String c _ => negb (is_word_char c)
  end.

(** [w] stands in [s] as a whole word; [prev] tells whether the
    character before [s] is a word character. *)
Fixpoint whole_word_from (w s : string) (prev : bool) : bool :=
  (negb prev && starts_with w s && boundary_after (String.length w) s)
  || match s with
     | EmptyString => false
     | String c s' => whole_word_from w s' (is_word_char c)
     end.

(** [s] contains the word [w] between two word boundaries. *)
Definition contains_word (w s : string) : bool := whole_word_from w s false.

(** [hay] contains [needle] when case is ignored. *)
Definition ContainsIgnoringCase (hay needle : string) : Prop :=
  exists pre m post,
    hay = pre ++ m ++ post /\ toLowerCase m = toLowerCase needle.

(** The area of a feature contains [loc], case ignored; a missing or
    null area contains nothing. *)
Definition AreaContains (a : JsText) (loc : string) : Prop :=
  match a with
  | JsString s => ContainsIgnoringCase s loc
  | JsUndefined | JsNull => False
  end.

(** The matching invariant of the data model. *)
Definition FeatureMatches (qf : QueryFilter) (f : Feature) : Prop :=
  (amenityFilter qf = None
   \/ amenityFilter qf = Some (amenity_type (properties f)))
  /\ (locationFilter qf = None
      \/ exists loc, locationFilter qf = Some loc
                     /\ AreaContains (area (properties f)) loc).

(** [out] is [l] with exactly the elements satisfying [P] kept, in the
    order of [l]. *)
Inductive StableSelection {A : Type} (P : A -> Prop)
  : list A -> list A -> Prop :=
| SelNil : StableSelection P [] []
| SelKeep x l out :
    P x -> StableSelection P l out -> StableSelection P (x :: l) (x :: out)
| SelDrop x l out :
    ~ P x -> StableSelection P l out -> StableSelection P (x :: l) out.

(** A filter of the data model: a field that is present holds a
    non-empty text, and the location text is in lowercase. *)
Definition WellFormed (qf : QueryFilter) : Prop :=
  (forall a, amenityFilter qf = Some a -> a <> "")
  /\ (forall loc, locationFilter qf = Some loc ->
                  loc <> "" /\ toLowerCase loc = loc).

Definition emptyFilter : QueryFilter := mkQueryFilter None None.


(** A preposition, then whitespace, then the locality. *)
Definition LocationPhrase (s : string) : Prop :=
  exists pre prep ws post,
    s = pre ++ prep ++ ws ++ "corniche" ++ post
    /\ (prep = "near" \/ prep = "at" \/ prep = "in")
    /\ ws <> "" /\ all_chars is_whitespace ws = true.

(** The query, case ignored, holds none of the recognized keywords. *)
Definition NoKeyword (query : string) : Prop :=
  let s := toLowerCase query in
  ~ Substring "park" s /\ ~ Substring "hospital" s
  /\ ~ Substring "clinic" s /\ ~ LocationPhrase s.

(** The amenity rule read with word boundaries. *)
Definition AmenityByWholeWord : Prop :=
  forall query,
    let s := toLowerCase query in
    let park := contains_word "park" s || contains_word "parks" s in
    let hospital :=
      contains_word "hospital" s || contains_word "hospitals" s
      || contains_word "clinic" s || contains_word "clinics" s in
    (amenityFilter (interpretQuery query) = Some "park" <-> park = true)
    /\ (amenityFilter (interpretQuery query) = Some "hospital"
        <-> park = false /\ hospital = true).

(** The events by which the user submits a query. *)
Definition Submission (ev : Event) : Prop :=
  match ev with
  | Click _ | Keypress _ _ => True
  | FetchResolved _ | FetchRejected => False
  end.


(** The style shared by the markers that are not parks. *)
Definition red_style : PathOptions := mkPathOptions 8 "red" "#000" 1 1 0.8.
Definition green_style : PathOptions :=
  mkPathOptions 8 "green" "#000" 1 1 0.8.

End Spec.
Import Spec.

(* ===================================================================== *)
(** ** A small data set *)
(* ===================================================================== *)

Module Sample.

Definition corniche_park : Feature :=
  mkFeature (54.32, 24.46)
    (mkProperties "Corniche Park" "park" (JsString "Corniche Road")).

Definition city_clinic : Feature :=
  mkFeature (54.37, 24.45) (mkProperties "City Clinic" "hospital" JsNull).

Definition khalifa_park : Feature :=
  mkFeature (54.42, 24.43)
    (mkProperties "Khalifa Park" "park" (JsString "Al Matar")).

Definition data : FeatureCollection :=
  mkFeatureCollection "FeatureCollection"
    [corniche_park; city_clinic; khalifa_park].

(** The page once the data has arrived. *)
Definition loaded : World := handle (FetchResolved data) initial_world.

Definition parks_at_corniche : QueryFilter :=
  mkQueryFilter (Some "park") (Some "corniche").

End Sample.

(* ===================================================================== *)
(** ** Reading the page *)
(* ===================================================================== *)

Module Page.

(** The marker [L.geoJSON] makes of one feature: [pointToLayer] at the
    position of the feature, then [onEachFeature]. *)
Definition draw (f : Feature) : CircleMarker :=
  onEachFeature f (pointToLayer f (coordsToLatLng (coordinates f))).

Definition position (f : Feature) : LatLng :=
  coordsToLatLng (coordinates f).

(** The markers of the layer held in [currentLayer]. *)
Definition shown (w : World) : list CircleMarker :=
  match currentLayer w with
  | Some layer => markers layer
  | None => []
  end.

(** The map carries the layer held in [currentLayer] and no other. *)
Definition OneLayer (w : World) : Prop :=
  layers (leaflet_map w)
  = match currentLayer w with
    | Some layer => [layer]
    | None => []
    end.

(** The layers left on the map once the previous result is removed. *)
Definition cleared (w : World) : list GeoJSONLayer :=
  match currentLayer w with
  | Some old =>
      List.filter (fun l => negb (Nat.eqb (stamp l) (stamp old)))
                  (layers (leaflet_map w))
  | None => layers (leaflet_map w)
  end.

(** The globals right after [allAmenitiesData = data]. *)
Definition with_data (data : FeatureCollection) (w : World) : World :=
  mkWorld (Some data) (currentLayer w) (leaflet_map w) (alerts w)
          (console w) (next_stamp w).

(** The patterns without their optional plural. *)
Definition re_park_bare : regex := RLit "park".
Definition re_hospital_bare : regex := RAlt (RLit "hospital") (RLit "clinic").

End Page.
Import Page.

(* ===================================================================== *)
(** ** Facts about strings *)
(* ===================================================================== *)

Section StringFacts.

Lemma append_nil_r (s : string) : s ++ "" = s.
Proof. induction s as [|c s IH]; simpl; [reflexivity | now rewrite IH]. Qed.

Lemma append_assoc (a b c : string) : (a ++ b) ++ c = a ++ (b ++ c).
Proof. induction a as [|x a IH]; simpl; [reflexivity | now rewrite IH]. Qed.

Lemma append_eq_nil (a b : string) : a ++ b = "" -> a = "" /\ b = "".
Proof. destruct a; simpl; intros H; [now split | discriminate]. Qed.


Lemma toLowerCase_append (a b : string) :
  toLowerCase (a ++ b) = toLowerCase a ++ toLowerCase b.
Proof. induction a as [|x a IH]; simpl; [reflexivity | now rewrite IH]. Qed.

Lemma toLowerCase_split (s a b : string) :
  toLowerCase s = a ++ b ->
  exists a' b', s = a' ++ b' /\ toLowerCase a' = a /\ toLowerCase b' = b.
Proof.
  revert s. induction a as [|x a IH]; intros s H.
  - exists "", s. simpl in *. auto.
  - destruct s as [|c s]; simpl in H; [discriminate|].
    injection H as Hc Hs.
    destruct (IH _ Hs) as (a' & b' & -> & Ha & Hb).
    exists (String c a'), b'. simpl. now rewrite Hc, Ha, Hb.
Qed.

Lemma starts_with_iff (p s : string) :
  starts_with p s = true <-> exists post, s = p ++ post.
Proof.
  revert s. induction p as [|a p IH]; intros s; simpl.
  - split; [intros _; now exists s | reflexivity].
  - destruct s as [|b s].
    + split; [discriminate | intros [post H]; discriminate].
    + rewrite andb_true_iff, Ascii.eqb_eq, IH. split.
      * intros [-> [post ->]]. now exists post.
      * intros [post H]. injection H as -> ->. split; [reflexivity|].
        now exists post.
Qed.

Lemma Substring_here (w s : string) :
  starts_with w s = true -> Substring w s.
Proof.
  intros H. apply starts_with_iff in H as [post ->]. now exists "", post.
Qed.

Lemma Substring_later (w s : string) (c : ascii) :
  Substring w s -> Substring w (String c s).
Proof. intros (pre & post & ->). now exists (String c pre), post. Qed.

Lemma Substring_inv (w s : string) (c : ascii) :
  Substring w (String c s) ->
  starts_with w (String c s) = true \/ Substring w s.
Proof.
  intros (pre & post & H). destruct pre as [|x pre]; simpl in H.
  - left. apply starts_with_iff. now exists post.
  - right. injection H as _ ->. now exists pre, post.
Qed.

Lemma Substring_nil_inv (w : string) :
  Substring w "" -> starts_with w "" = true.
Proof.
  intros (pre & post & H). symmetry in H.
  apply append_eq_nil in H as [_ H]. apply append_eq_nil in H as [-> _].
  reflexivity.
Qed.



Lemma indexOf_from_found (needle hay : string) (pos : Z) :
  (0 <= pos)%Z ->
  Substring needle hay -> (pos <= indexOf_from needle hay pos)%Z.
Proof.
  revert pos. induction hay as [|c hay IH]; intros pos Hpos H.
  - apply Substring_nil_inv in H. simpl. rewrite H. lia.
  - cbn [indexOf_from].
    destruct (starts_with needle (String c hay)) eqn:E; [lia|].
    apply Substring_inv in H as [H|H]; [congruence|].
    specialize (IH (pos + 1)%Z ltac:(lia) H). lia.
Qed.

Lemma indexOf_from_missing (needle hay : string) (pos : Z) :
  ~ Substring needle hay -> indexOf_from needle hay pos = (-1)%Z.
Proof.
  revert pos. induction hay as [|c hay IH]; intros pos H.
  - simpl. destruct (starts_with needle "") eqn:E; [|reflexivity].
    exfalso. apply H. now apply Substring_here.
  - cbn [indexOf_from].
    destruct (starts_with needle (String c hay)) eqn:E.
    + exfalso. apply H. now apply Substring_here.
    + apply IH. intros H'. apply H. now apply Substring_later.
Qed.

(** [indexOf] answers -1 exactly when the needle does not occur. *)
Lemma indexOf_minus_one (hay needle : string) :
  (indexOf hay needle =? -1)%Z = true <-> ~ Substring needle hay.
Proof.
  unfold indexOf. rewrite Z.eqb_eq. split.
  - intros H Hsub.
    pose proof (indexOf_from_found needle hay 0 ltac:(lia) Hsub). lia.
  - apply indexOf_from_missing.
Qed.

Lemma indexOf_from_hit (needle hay : string) (pos : Z) :
  indexOf_from needle hay pos <> (-1)%Z -> Substring needle hay.
Proof.
  revert pos. induction hay as [|c hay IH]; intros pos; cbn [indexOf_from].
  - destruct (starts_with needle "") eqn:E; [|congruence].
    intros _. now apply Substring_here.
  - destruct (starts_with needle (String c hay)) eqn:E.
    + intros _. now apply Substring_here.
    + intros H. apply Substring_later. now apply (IH (pos + 1)%Z).
Qed.

(** [indexOf] answers a position exactly when the needle occurs. *)
Lemma indexOf_position (hay needle : string) :
  (indexOf hay needle =? -1)%Z = false <-> Substring needle hay.
Proof.
  rewrite Z.eqb_neq. split; [apply indexOf_from_hit|].
  intros H E. apply Z.eqb_eq, indexOf_minus_one in E. contradiction.
Qed.



End StringFacts.

(* ===================================================================== *)
(** ** The matcher against the language of a pattern *)
(* ===================================================================== *)

Section MatcherFacts.

Lemma nullable_sound (r : regex) : nullable r = true -> Matches r "".
Proof.
  induction r; simpl; intros H; try discriminate.
  - constructor.
  - apply andb_true_iff in H as [H1 H2].
    change "" with ("" ++ ""). constructor; auto.
  - apply orb_true_iff in H as [H|H]; [apply MAltL | apply MAltR]; auto.
  - constructor.
Qed.

Lemma nullable_complete (r : regex) (s : string) :
  Matches r s -> s = "" -> nullable r = true.
Proof.
  induction 1; intros E; simpl; try discriminate; try reflexivity.
  - apply append_eq_nil in E as [-> ->].
    now rewrite IHMatches1, IHMatches2.
  - now rewrite IHMatches.
  - rewrite IHMatches by assumption. apply orb_true_r.
Qed.

Lemma nullable_iff (r : regex) : nullable r = true <-> Matches r "".
Proof.
  split; [apply nullable_sound|].
  intros H. now apply (nullable_complete r "").
Qed.

Lemma deriv_sound (c : ascii) (r : regex) (s : string) :
  Matches (deriv c r) s -> Matches r (String c s).
Proof.
  revert s. induction r; simpl; intros s H.
  - inversion H.
  - inversion H.
  - destruct (Ascii.eqb_spec c c0) as [->|]; inversion H; subst.
    constructor.
  - destruct (p c) eqn:E; inversion H; subst. now constructor.
  - destruct (nullable r1) eqn:E.
    + inversion H as [| | |? ? ? ? | ? ? ? H1 | ? ? ? H1 | |]; subst.
      * inversion H1; subst.
        change (String c (s1 ++ s2)) with (String c s1 ++ s2).
        constructor; auto.
      * change (String c s) with ("" ++ String c s).
        constructor; [now apply nullable_sound | auto].
    + inversion H; subst.
      change (String c (s1 ++ s2)) with (String c s1 ++ s2).
      constructor; auto.
  - inversion H; subst; [apply MAltL | apply MAltR]; auto.
  - inversion H; subst.
    change (String c (s1 ++ s2)) with (String c s1 ++ s2).
    constructor; auto.
Qed.

Lemma deriv_complete (c : ascii) (r : regex) (s0 : string) :
  Matches r s0 -> forall t, s0 = String c t -> Matches (deriv c r) t.
Proof.
  induction 1; intros t E; simpl.
  - discriminate.
  - injection E as -> <-. rewrite Ascii.eqb_refl. constructor.
  - injection E as -> <-. rewrite H. constructor.
  - destruct s1 as [|x s1]; simpl in E.
    + subst s2. rewrite (nullable_complete r1 "" H eq_refl).
      apply MAltR. now apply IHMatches2.
    + injection E as -> <-.
      assert (Matches (RSeq (deriv c r1) r2) (s1 ++ s2))
        by (constructor; auto).
      destruct (nullable r1); [now apply MAltL | assumption].
  - apply MAltL. now apply IHMatches.
  - apply MAltR. now apply IHMatches.
  - discriminate.
  - destruct s1 as [|x s1]; simpl in E.
    + now apply IHMatches2.
    + injection E as -> <-. constructor; auto.
Qed.

Lemma deriv_iff (c : ascii) (r : regex) (s : string) :
  Matches (deriv c r) s <-> Matches r (String c s).
Proof.
  split; [apply deriv_sound|].
  intros H. now apply (deriv_complete c r (String c s)).
Qed.

(** [match_here] finds a prefix in the language, if there is one. *)
Lemma match_here_iff (r : regex) (s : string) :
  match_here r s = true <-> exists m post, s = m ++ post /\ Matches r m.
Proof.
  revert r. induction s as [|c s IH]; intros r; simpl.
  - rewrite orb_false_r, nullable_iff. split.
    + intros H. now exists "", "".
    + intros (m & post & E & H). symmetry in E.
      apply append_eq_nil in E as [-> _]. exact H.
  - rewrite orb_true_iff, nullable_iff, IH. split.
    + intros [H | (m & post & -> & H)].
      * now exists "", (String c s).
      * exists (String c m), post. split; [reflexivity|].
        now apply deriv_sound.
    + intros (m & post & E & H). destruct m as [|x m]; simpl in E.
      * now left.
      * injection E as <- ->. right. exists m, post.
        split; [reflexivity | now apply deriv_iff].
Qed.

(** [test] answers true exactly when the pattern matches somewhere. *)
Lemma test_iff (r : regex) (s : string) : test r s = true <-> Found r s.
Proof.
  unfold Found. induction s as [|c s IH]; simpl.
  - rewrite orb_false_r.
    change (nullable r || false) with (match_here r "").
    rewrite match_here_iff. split.
    + intros (m & post & E & H). now exists "", m, post.
    + intros (pre & m & post & E & H). symmetry in E.
      apply append_eq_nil in E as [-> E]. symmetry in E. eauto.
  - change (nullable r || match_here (deriv c r) s)
      with (match_here r (String c s)).
    rewrite orb_true_iff, match_here_iff, IH. split.
    + intros [(m & post & E & H) | (pre & m & post & -> & H)].
      * now exists "", m, post.
      * now exists (String c pre), m, post.
    + intros (pre & m & post & E & H). destruct pre as [|x pre]; simpl in E.
      * left. eauto.
      * injection E as _ ->. right. eauto.
Qed.


Lemma Matches_RLit (w m : string) : Matches (RLit w) m <-> m = w.
Proof.
  revert m. induction w as [|c w IH]; intros m; simpl.
  - split; [intros H; now inversion H | intros ->; constructor].
  - split.
    + intros H. inversion H as [| | |? ? ? ? H1 H2| | | |]; subst.
      inversion H1; subst. apply IH in H2 as ->. reflexivity.
    + intros ->. change (String c w) with (String c "" ++ w).
      constructor; [constructor | now apply IH].
Qed.

Lemma Matches_ROpt (r : regex) (m : string) :
  Matches (ROpt r) m <-> Matches r m \/ m = "".
Proof.
  unfold ROpt. split.
  - intros H. inversion H as [| | | | ? ? ? H1 | ? ? ? H1 | |]; subst;
      [now left | right; now inversion H1].
  - intros [H | ->]; [now apply MAltL | apply MAltR; constructor].
Qed.

Lemma Matches_RSeq (r1 r2 : regex) (m : string) :
  Matches (RSeq r1 r2) m <->
  exists m1 m2, m = m1 ++ m2 /\ Matches r1 m1 /\ Matches r2 m2.
Proof.
  split.
  - intros H. inversion H; subst. eauto.
  - intros (m1 & m2 & -> & H1 & H2). now constructor.
Qed.

Lemma Matches_RAlt (r1 r2 : regex) (m : string) :
  Matches (RAlt r1 r2) m <-> Matches r1 m \/ Matches r2 m.
Proof.
  split.
  - intros H. inversion H; subst; auto.
  - intros [H | H]; [now apply MAltL | now apply MAltR].
Qed.

(** A literal followed by an optional [s]. *)
Lemma Matches_plural (w m : string) :
  Matches (RSeq (RLit w) (ROpt (RChar "s"))) m <-> m = w \/ m = w ++ "s".
Proof.
  rewrite Matches_RSeq. split.
  - intros (m1 & m2 & -> & H1 & H2). apply Matches_RLit in H1 as ->.
    apply Matches_ROpt in H2 as [H2 | ->].
    + inversion H2; subst. now right.
    + left. apply append_nil_r.
  - intros [-> | ->].
    + exists w, "". rewrite append_nil_r. split; [reflexivity|].
      split; [now apply Matches_RLit | apply Matches_ROpt; now right].
    + exists w, "s". split; [reflexivity|].
      split; [now apply Matches_RLit|].
      apply Matches_ROpt. left. constructor.
Qed.

Lemma Found_plural (w s : string) :
  Found (RSeq (RLit w) (ROpt (RChar "s"))) s <-> Substring w s.
Proof.
  unfold Found, Substring. split.
  - intros (pre & m & post & -> & H).
    apply Matches_plural in H as [-> | ->]; [eauto|].
    exists pre, ("s" ++ post). now rewrite append_assoc.
  - intros (pre & post & ->). exists pre, w, post.
    split; [reflexivity | apply Matches_plural; now left].
Qed.

Lemma Found_RAlt (r1 r2 : regex) (s : string) :
  Found (RAlt r1 r2) s <-> Found r1 s \/ Found r2 s.
Proof.
  unfold Found. split.
  - intros (pre & m & post & E & H).
    apply Matches_RAlt in H as [H | H]; [left | right]; eauto.
  - intros [(pre & m & post & E & H) | (pre & m & post & E & H)];
      exists pre, m, post; (split; [assumption|]);
      apply Matches_RAlt; auto.
Qed.

(** [\s+] matches the non-empty runs of whitespace. *)
Lemma Matches_star_space (m : string) :
  Matches (RStar RSpace) m <-> all_chars is_whitespace m = true.
Proof.
  split.
  - intros H. remember (RStar RSpace) as r eqn:Er.
    induction H; try discriminate; [reflexivity|].
    injection Er as ->. inversion H as [| |? ? Hc| | | | |]; subst. simpl.
    rewrite Hc. now apply IHMatches2.
  - induction m as [|c m IH]; simpl; intros H; [constructor|].
    apply andb_true_iff in H as [Hc Hm].
    change (String c m) with (String c "" ++ m).
    constructor; [now constructor | now apply IH].
Qed.

Lemma Matches_plus_space (m : string) :
  Matches (RPlus RSpace) m <-> m <> "" /\ all_chars is_whitespace m = true.
Proof.
  unfold RPlus. rewrite Matches_RSeq. split.
  - intros (m1 & m2 & -> & H1 & H2).
    inversion H1 as [| |? ? Hc| | | | |]; subst.
    apply Matches_star_space in H2. simpl. split; [discriminate|].
    now rewrite Hc, H2.
  - intros [Hne H]. destruct m as [|c m]; [contradiction|].
    simpl in H. apply andb_true_iff in H as [Hc Hm].
    exists (String c ""), m. split; [reflexivity|].
    split; [now constructor | now apply Matches_star_space].
Qed.

End MatcherFacts.

(* ===================================================================== *)
(** ** The three patterns of the script *)
(* ===================================================================== *)

Section PatternFacts.

Lemma test_park (s : string) :
  test re_park s = true <-> Substring "park" s.
Proof.
  rewrite test_iff. unfold re_park, RGroup. apply Found_plural.
Qed.

Lemma test_hospital (s : string) :
  test re_hospital s = true <->
  Substring "hospital" s \/ Substring "clinic" s.
Proof.
  rewrite test_iff. unfold re_hospital, RGroup.
  now rewrite Found_RAlt, !Found_plural.
Qed.

Lemma Matches_preposition (m : string) :
  Matches (RAlt (RLit "near") (RAlt (RLit "at") (RLit "in"))) m <->
  m = "near" \/ m = "at" \/ m = "in".
Proof. now rewrite !Matches_RAlt, !Matches_RLit. Qed.

Lemma test_location (s : string) :
  test re_location s = true <-> LocationPhrase s.
Proof.
  rewrite test_iff. unfold re_location, RGroup, Found, LocationPhrase.
  split.
  - intros (pre & m & post & -> & H).
    apply Matches_RSeq in H as (prep & m' & -> & Hprep & H).
    apply Matches_RSeq in H as (ws & loc & -> & Hws & Hloc).
    apply Matches_preposition in Hprep.
    apply Matches_plus_space in Hws as [Hne Hws].
    apply Matches_RLit in Hloc as ->.
    exists pre, prep, ws, post. rewrite !append_assoc. auto.
  - intros (pre & prep & ws & post & -> & Hprep & Hne & Hws).
    exists pre, (prep ++ ws ++ "corniche"), post.
    split; [now rewrite !append_assoc|].
    apply Matches_RSeq. exists prep, (ws ++ "corniche").
    split; [reflexivity|]. split; [now apply Matches_preposition|].
    apply Matches_RSeq. exists ws, "corniche".
    split; [reflexivity|].
    split; [now apply Matches_plus_space | now apply Matches_RLit].
Qed.





Lemma no_keyword_empty_filter (query : string) :
  NoKeyword query -> interpretQuery query = emptyFilter.
Proof.
  unfold NoKeyword, interpretQuery, amenityFilter_of, locationFilter_of.
  cbv zeta. intros (Hp & Hh & Hc & Hl).
  destruct (test re_park _) eqn:Ep;
    [apply test_park in Ep; contradiction|].
  destruct (test re_hospital _) eqn:Eh;
    [apply test_hospital in Eh; tauto|].
  destruct (test re_location _) eqn:El;
    [apply test_location in El; contradiction|].
  reflexivity.
Qed.

Lemma interpretQuery_well_formed (query : string) :
  WellFormed (interpretQuery query).
Proof.
  unfold WellFormed, interpretQuery, amenityFilter_of, locationFilter_of.
  simpl. split.
  - intros a. destruct (test re_park _); [|destruct (test re_hospital _)];
      intros E; inversion E; discriminate.
  - intros loc. destruct (test re_location _); intros E; inversion E.
    split; [discriminate | reflexivity].
Qed.

End PatternFacts.

(* ===================================================================== *)
(** ** The feature filter *)
(* ===================================================================== *)

Section FilterFacts.

Lemma truthy_nonempty (s : string) : s <> "" -> truthy s = true.
Proof. destruct s; [contradiction | reflexivity]. Qed.

(** Against a lowercase needle, ignoring case is lowering the text. *)
Lemma ContainsIgnoringCase_lower (hay needle : string) :
  toLowerCase needle = needle ->
  ContainsIgnoringCase hay needle <-> Substring needle (toLowerCase hay).
Proof.
  intros Hlow. unfold ContainsIgnoringCase, Substring. split.
  - intros (pre & m & post & -> & Hm).
    exists (toLowerCase pre), (toLowerCase post).
    now rewrite !toLowerCase_append, Hm, Hlow.
  - intros (pre & post & H).
    apply toLowerCase_split in H as (a & rest & -> & Ha & H).
    apply toLowerCase_split in H as (m & b & -> & Hm & Hb).
    exists a, m, b. split; [reflexivity | congruence].
Qed.

Lemma ContainsIgnoringCase_nil (needle : string) :
  toLowerCase needle = needle ->
  ContainsIgnoringCase "" needle -> needle = "".
Proof.
  intros Hlow (pre & m & post & E & Hm). symmetry in E.
  apply append_eq_nil in E as [_ E]. apply append_eq_nil in E as [-> _].
  simpl in Hm. congruence.
Qed.

(** The callback never throws: the falsy test on [area] comes before
    the method call. *)
Lemma filterCallback_total (qf : QueryFilter) (f : Feature) :
  exists b, filterCallback qf f = Normal b.
Proof.
  unfold filterCallback.
  destruct (truthy_filter (amenityFilter qf)
            && strict_neq (amenity_type (properties f)) (amenityFilter qf));
    simpl; [eauto|].
  destruct (truthy_filter (locationFilter qf)); [|eauto].
  destruct (area (properties f)) as [| |s]; simpl; eauto.
  destruct (truthy s); simpl; [|eauto].
  destruct (indexOf _ _ =? -1)%Z; eauto.
Qed.

Lemma amenity_check (af : option string) (t : string) :
  (forall a, af = Some a -> a <> "") ->
  truthy_filter af && strict_neq t af = false <->
  af = None \/ af = Some t.
Proof.
  intros Haf. destruct af as [a|]; simpl; [|tauto].
  rewrite (truthy_nonempty a (Haf a eq_refl)). simpl.
  rewrite negb_false_iff, String.eqb_eq. split.
  - intros ->. now right.
  - intros [H|H]; [discriminate | now injection H].
Qed.

Lemma location_check (loc : string) (P : string -> Prop) :
  (Some loc = None \/ exists loc', Some loc = Some loc' /\ P loc')
  <-> P loc.
Proof.
  split.
  - intros [H | (loc' & H & HP)]; [discriminate|]. now injection H as ->.
  - intros HP. right. eauto.
Qed.

(** The callback decides the matching invariant. *)
Lemma filterCallback_spec (qf : QueryFilter) (f : Feature) :
  WellFormed qf ->
  exists b, filterCallback qf f = Normal b
            /\ (b = true <-> FeatureMatches qf f).
Proof.
  destruct qf as [af lf]. unfold WellFormed, FeatureMatches, filterCallback.
  simpl. intros [Haf Hlf].
  pose proof (amenity_check af (amenity_type (properties f)) Haf) as Hamen.
  destruct (truthy_filter af
            && strict_neq (amenity_type (properties f)) af); simpl.
  { exists false. split; [reflexivity|]. split; [discriminate|].
    intros [H _]. apply Hamen in H. discriminate. }
  assert (Ha : af = None \/ af = Some (amenity_type (properties f)))
    by now apply Hamen.
  destruct lf as [loc|]; simpl.
  2:{ exists true. split; [reflexivity|]. split; auto. }
  destruct (Hlf loc eq_refl) as [Hne Hlow].
  rewrite (truthy_nonempty loc Hne).
  setoid_rewrite (location_check loc
                    (AreaContains (area (properties f)))).
  destruct (area (properties f)) as [| |s]; simpl.
  - exists false. split; [reflexivity|]. split; [discriminate | tauto].
  - exists false. split; [reflexivity|]. split; [discriminate | tauto].
  - destruct s as [|c s]; simpl.
    + exists false. split; [reflexivity|]. split; [discriminate|].
      intros [_ Hc]. exfalso. apply Hne.
      now apply ContainsIgnoringCase_nil.
    + change (String (lower_char c) (toLowerCase s))
        with (toLowerCase (String c s)).
      pose proof (ContainsIgnoringCase_lower (String c s) loc Hlow) as Hci.
      destruct (indexOf _ _ =? -1)%Z eqn:Eidx.
      * exists false. split; [reflexivity|]. split; [discriminate|].
        intros [_ Hc]. apply Hci in Hc.
        apply indexOf_minus_one in Eidx. contradiction.
      * exists true. split; [reflexivity|]. split; [|reflexivity].
        intros _. split; [assumption|].
        apply Hci. now apply indexOf_position.
Qed.

End FilterFacts.

Section ArrayFilterFacts.

Context {A : Type} (callback : A -> Completion bool).

Lemma array_filter_selection (P : A -> Prop) (array : list A) :
  (forall x, exists b, callback x = Normal b /\ (b = true <-> P x)) ->
  exists out,
    array_filter callback array = Normal out
    /\ StableSelection P array out.
Proof.
  intros Hcb. induction array as [|x rest (out & Hrest & Hsel)]; simpl.
  - exists []. split; [reflexivity | constructor].
  - destruct (Hcb x) as (b & Hb & HP). rewrite Hb, Hrest. simpl.
    destruct b.
    + exists (x :: out). split; [reflexivity|].
      constructor; [now apply HP | assumption].
    + exists out. split; [reflexivity|].
      apply SelDrop; [|assumption].
      intros Hx. apply HP in Hx. discriminate.
Qed.

Lemma array_filter_total (array : list A) :
  (forall x, exists b, callback x = Normal b) ->
  exists out, array_filter callback array = Normal out.
Proof.
  intros Hcb. induction array as [|x rest (out & Hrest)]; simpl.
  - now exists [].
  - destruct (Hcb x) as (b & Hb). rewrite Hb, Hrest. simpl. eauto.
Qed.

(** Every element of the result is one the callback accepted. *)
Lemma array_filter_kept (array out : list A) :
  array_filter callback array = Normal out ->
  forall x, In x out -> In x array /\ callback x = Normal true.
Proof.
  revert out. induction array as [|y rest IH]; simpl; intros out H x Hx.
  - injection H as <-. contradiction.
  - destruct (callback y) as [b|] eqn:Hy; simpl in H; [|discriminate].
    destruct (array_filter callback rest) as [kept|]; simpl in H;
      [|discriminate].
    injection H as <-.
    destruct b; [destruct Hx as [<- | Hx]; [now auto|]|];
      destruct (IH kept eq_refl x Hx); auto.
Qed.

Lemma array_filter_all_kept (array : list A) :
  (forall x, In x array -> callback x = Normal true) ->
  array_filter callback array = Normal array.
Proof.
  induction array as [|y rest IH]; simpl; intros H; [reflexivity|].
  rewrite (H y) by now left. simpl.
  rewrite IH by (intros x Hx; apply H; now right). reflexivity.
Qed.

Lemma array_filter_again (array out : list A) :
  array_filter callback array = Normal out ->
  array_filter callback out = Normal out.
Proof.
  intros H. apply array_filter_all_kept. intros x Hx.
  now apply (array_filter_kept array out H).
Qed.

End ArrayFilterFacts.

Lemma StableSelection_In {A : Type} (P : A -> Prop) (l out : list A) :
  StableSelection P l out -> forall x, In x out <-> In x l /\ P x.
Proof.
  induction 1 as [|y l out Hy _ IH|y l out Hy _ IH]; intros x; simpl.
  - tauto.
  - rewrite IH. split.
    + intros [<- | [? ?]]; auto.
    + intros [[<- | ?] ?]; auto.
  - rewrite IH. split.
    + intros [? ?]; auto.
    + intros [[<- | ?] ?]; [contradiction | auto].
Qed.

Lemma filterFeatures_total (qf : QueryFilter) (fs : list Feature) :
  exists out, filterFeatures qf fs = Normal out.
Proof.
  apply array_filter_total. intros f. apply filterCallback_total.
Qed.

(** The filter read off any query selects by the matching invariant. *)
Lemma query_result_is_selection (query : string) (fs : list Feature) :
  exists out,
    filterFeatures (interpretQuery query) fs = Normal out
    /\ StableSelection (FeatureMatches (interpretQuery query)) fs out.
Proof.
  apply array_filter_selection. intros f.
  apply filterCallback_spec, interpretQuery_well_formed.
Qed.

(* ===================================================================== *)
(** ** Properties of the filter evaluator *)
(* ===================================================================== *)

(** C1. For every collection and every filter of the data model, the
    evaluator returns exactly the features that satisfy the matching
    invariant (amenity filter absent or equal to the amenity type, and
    location filter absent or contained in the area, case ignored), in
    the order of the collection. *)
Theorem filter_returns_matching_features :
  forall (fs : list Feature) (qf : QueryFilter),
    WellFormed qf ->
    exists out,
      filterFeatures qf fs = Normal out
      /\ StableSelection (FeatureMatches qf) fs out
      /\ (forall f, In f out <-> In f fs /\ FeatureMatches qf f).
Proof.
  intros fs qf Hwf.
  destruct (array_filter_selection (filterCallback qf) (FeatureMatches qf) fs)
    as (out & Hout & Hsel).
  { intros f. now apply filterCallback_spec. }
  exists out. split; [exact Hout|]. split; [exact Hsel|].
  now apply StableSelection_In.
Qed.

(** C7. Filtering the output of the evaluator again with the same filter
    returns the same sequence in the same order. *)
Theorem filter_idempotent :
  forall (fs : list Feature) (qf : QueryFilter),
    exists out,
      filterFeatures qf fs = Normal out
      /\ filterFeatures qf out = Normal out.
Proof.
  intros fs qf. destruct (filterFeatures_total qf fs) as (out & Hout).
  exists out. split; [exact Hout|].
  now apply (array_filter_again _ fs).
Qed.

(** C8. Under a non-empty location filter a feature whose area is null or
    missing is rejected by the callback without an exception, and is not
    in the result of the evaluator. *)
Theorem missing_area_never_matches :
  forall (qf : QueryFilter) (loc : string) (f : Feature),
    locationFilter qf = Some loc ->
    loc <> "" ->
    area (properties f) = JsNull \/ area (properties f) = JsUndefined ->
    filterCallback qf f = Normal false
    /\ forall fs, exists out,
         filterFeatures qf fs = Normal out /\ ~ In f out.
Proof.
  intros qf loc f Hloc Hne Harea.
  assert (Hcb : filterCallback qf f = Normal false).
  { unfold filterCallback. rewrite Hloc. simpl.
    rewrite (truthy_nonempty loc Hne).
    destruct (truthy_filter (amenityFilter qf) && _); simpl; [reflexivity|].
    destruct Harea as [-> | ->]; reflexivity. }
  split; [exact Hcb|]. intros fs.
  destruct (filterFeatures_total qf fs) as (out & Hout).
  exists out. split; [exact Hout|]. intros Hin.
  destruct (array_filter_kept _ fs out Hout f Hin) as [_ Hyes].
  congruence.
Qed.

Lemma filter_returns_matching_features_witness :
  WellFormed Sample.parks_at_corniche
  /\ exists out,
       filterFeatures Sample.parks_at_corniche (features Sample.data)
       = Normal out
       /\ StableSelection (FeatureMatches Sample.parks_at_corniche)
            (features Sample.data) out
       /\ (forall f, In f out <->
                     In f (features Sample.data)
                     /\ FeatureMatches Sample.parks_at_corniche f).
Proof.
  assert (Hwf : WellFormed Sample.parks_at_corniche).
  { split; simpl; intros x E; injection E as <-;
      [discriminate | split; [discriminate | reflexivity]]. }
  split; [exact Hwf|].
  exact (filter_returns_matching_features
           (features Sample.data) Sample.parks_at_corniche Hwf).
Defined.

Lemma missing_area_never_matches_witness :
  (locationFilter (interpretQuery "hospitals near Corniche")
   = Some "corniche"
   /\ "corniche" <> ""
   /\ (area (properties Sample.city_clinic) = JsNull
       \/ area (properties Sample.city_clinic) = JsUndefined))
  /\ filterCallback (mkQueryFilter (Some "hospital") None)
       Sample.city_clinic = Normal true
  /\ filterCallback (interpretQuery "hospitals near Corniche")
       Sample.city_clinic = Normal false
  /\ forall fs, exists out,
       filterFeatures (interpretQuery "hospitals near Corniche") fs
       = Normal out
       /\ ~ In Sample.city_clinic out.
Proof.
  assert (Hloc : locationFilter (interpretQuery "hospitals near Corniche")
                 = Some "corniche") by reflexivity.
  assert (Hne : "corniche" <> "") by discriminate.
  assert (Harea : area (properties Sample.city_clinic) = JsNull
                  \/ area (properties Sample.city_clinic) = JsUndefined)
    by (left; reflexivity).
  split; [auto|]. split; [reflexivity|].
  exact (missing_area_never_matches
           (interpretQuery "hospitals near Corniche") "corniche"
           Sample.city_clinic Hloc Hne Harea).
Defined.

(* ===================================================================== *)
(** ** Properties of the query interpretation *)
(* ===================================================================== *)

(** C2, as the script has it. The amenity filter is "park" exactly when
    the lowercased query contains the letters "park" anywhere, also
    inside a longer word; otherwise it is "hospital" exactly when the
    lowercased query contains "hospital" or "clinic" anywhere; and it is
    absent exactly when none of the three occurs. *)
Theorem amenity_by_substring :
  forall query : string,
    let s := toLowerCase query in
    let found := amenityFilter (interpretQuery query) in
    (found = Some "park" <-> Substring "park" s)
    /\ (found = Some "hospital" <->
        ~ Substring "park" s
        /\ (Substring "hospital" s \/ Substring "clinic" s))
    /\ (found = None <->
        ~ Substring "park" s /\ ~ Substring "hospital" s
        /\ ~ Substring "clinic" s).
Proof.
  intros query s found. subst found. unfold interpretQuery. simpl.
  fold s. unfold amenityFilter_of.
  pose proof (test_park s) as Hp. pose proof (test_hospital s) as Hh.
  destruct (test re_park s); [|destruct (test re_hospital s)].
  - assert (Substring "park" s) by now apply Hp.
    repeat split; try discriminate; try tauto.
  - assert (~ Substring "park" s) by (intros H; apply Hp in H; discriminate).
    assert (Substring "hospital" s \/ Substring "clinic" s) by now apply Hh.
    repeat split; try discriminate; try tauto.
  - assert (~ Substring "park" s) by (intros H; apply Hp in H; discriminate).
    assert (~ (Substring "hospital" s \/ Substring "clinic" s))
      by (intros H'; apply Hh in H'; discriminate).
    repeat split; try discriminate; try tauto.
Qed.

(** C2, as stated, fails: the query "parking" holds neither "park" nor
    "parks" as a whole word, and its amenity filter is "park". *)
Lemma parking_is_read_as_park :
  amenityFilter (interpretQuery "parking") = Some "park"
  /\ contains_word "park" (toLowerCase "parking") = false
  /\ contains_word "parks" (toLowerCase "parking") = false
  /\ ~ AmenityByWholeWord.
Proof.
  split; [reflexivity|]. split; [reflexivity|]. split; [reflexivity|].
  intros H. destruct (H "parking") as [[Hpark _] _].
  specialize (Hpark eq_refl). discriminate.
Qed.


(** C4. The location filter is "corniche" exactly when the lowercased
    query holds one of "near", "at", "in", then whitespace, then
    "corniche"; it is absent for every other query, and no other
    locality is ever produced. *)
Theorem location_only_corniche :
  forall query : string,
    let s := toLowerCase query in
    let found := locationFilter (interpretQuery query) in
    (found = Some "corniche" <-> LocationPhrase s)
    /\ (found = None <-> ~ LocationPhrase s)
    /\ (forall loc, found = Some loc -> loc = "corniche").
Proof.
  intros query s found. subst found. unfold interpretQuery. fold s. simpl.
  unfold locationFilter_of.
  pose proof (test_location s) as Hl.
  destruct (test re_location s).
  - assert (LocationPhrase s) by now apply Hl.
    repeat split; auto; try discriminate; try tauto.
    intros loc E. now injection E.
  - assert (~ LocationPhrase s) by (intros H; apply Hl in H; discriminate).
    repeat split; auto; try discriminate; try tauto.
Qed.



(* ===================================================================== *)
(** ** Properties of the displayed state *)
(* ===================================================================== *)

Lemma append_one_neq {A : Type} (l : list A) (x : A) : (l ++ [x])%list <> l.
Proof.
  intros H. apply (f_equal (@List.length A)) in H.
  rewrite List.length_app in H. simpl in H. lia.
Qed.

(** What a query does once the data is there. *)
Lemma display_outcome (w : World) (data : FeatureCollection)
  (query : string) :
  allAmenitiesData w = Some data ->
  exists out w',
    filterFeatures (interpretQuery query) (features data) = Normal out
    /\ filterAndDisplayFeatures query w = Ret tt w'
    /\ alerts w' = match out with
                   | [] => if String.eqb query "" then alerts w
                           else (alerts w ++ [NO_RESULTS_NOTICE])%list
                   | _ :: _ => alerts w
                   end
    /\ (out = [] -> query <> "" ->
        view (leaflet_map w') = ViewAt ABU_DHABI_CENTER INITIAL_ZOOM).
Proof.
  intros Hdata.
  destruct (filterFeatures_total (interpretQuery query) (features data))
    as (out & Hout).
  exists out. unfold filterAndDisplayFeatures, bind, get_allAmenitiesData.
  rewrite Hdata. unfold get_currentLayer.
  destruct (currentLayer w) as [old|]; cbn [map_removeLayer with_map ret];
    cbn [allAmenitiesData]; rewrite Hout; cbn [lift];
    (destruct out as [|f out];
     [ destruct (String.eqb_spec query "") as [->|Hq]
     | ]);
    eexists; (split; [reflexivity|]); (split; [reflexivity|]);
    (split; [reflexivity|]); intros; try reflexivity; congruence.
Qed.

(** C6. Once the data is loaded, the notice "No results found" is raised
    exactly when the result of the query is empty and the query is not
    the empty string, and the map is then put back at the default centre
    and zoom; the empty query never raises it. *)
Theorem no_results_notice :
  forall (w : World) (data : FeatureCollection) (query : string),
    allAmenitiesData w = Some data ->
    exists out w',
      filterFeatures (interpretQuery query) (features data) = Normal out
      /\ filterAndDisplayFeatures query w = Ret tt w'
      /\ (alerts w' = (alerts w ++ [NO_RESULTS_NOTICE])%list
          <-> out = [] /\ query <> "")
      /\ (alerts w' = alerts w
          \/ alerts w' = (alerts w ++ [NO_RESULTS_NOTICE])%list)
      /\ (out = [] /\ query <> "" ->
          view (leaflet_map w') = ViewAt ABU_DHABI_CENTER INITIAL_ZOOM)
      /\ (forall w0 : World,
             alerts (world_of (filterAndDisplayFeatures "" w0)) = alerts w0).
Proof.
  intros w data query Hdata.
  destruct (display_outcome w data query Hdata)
    as (out & w' & Hout & Hrun & Halerts & Hview).
  exists out, w'. split; [exact Hout|]. split; [exact Hrun|].
  split; [split|split; [|split]].
  - intros H. rewrite H in Halerts. destruct out as [|f out].
    + destruct (String.eqb_spec query "") as [->|Hq]; [|easy].
      now apply append_one_neq in Halerts.
    + now apply append_one_neq in Halerts.
  - intros [-> Hq]. rewrite Halerts.
    destruct (String.eqb_spec query ""); [contradiction | reflexivity].
  - rewrite Halerts. destruct out; [destruct (String.eqb query "")|]; auto.
  - intros [Hempty Hq]. now apply Hview.
  - intros w0. destruct (allAmenitiesData w0) as [data0|] eqn:E0.
    + destruct (display_outcome w0 data0 "" E0)
        as (out0 & w0' & _ & Hrun0 & Halerts0 & _).
      rewrite Hrun0. simpl. rewrite Halerts0. now destruct out0.
    + unfold filterAndDisplayFeatures, bind, get_allAmenitiesData.
      now rewrite E0.
Qed.

Lemma no_results_notice_witness :
  allAmenitiesData Sample.loaded = Some Sample.data
  /\ exists out w',
       filterFeatures (interpretQuery "hospitals near Corniche")
         (features Sample.data) = Normal out
       /\ filterAndDisplayFeatures "hospitals near Corniche" Sample.loaded
          = Ret tt w'
       /\ (alerts w' = (alerts Sample.loaded ++ [NO_RESULTS_NOTICE])%list
           <-> out = [] /\ "hospitals near Corniche" <> "")
       /\ (alerts w' = alerts Sample.loaded
           \/ alerts w' = (alerts Sample.loaded ++ [NO_RESULTS_NOTICE])%list)
       /\ (out = [] /\ "hospitals near Corniche" <> "" ->
           view (leaflet_map w') = ViewAt ABU_DHABI_CENTER INITIAL_ZOOM)
       /\ (forall w0 : World,
              alerts (world_of (filterAndDisplayFeatures "" w0))
              = alerts w0).
Proof.
  split; [reflexivity|].
  apply (no_results_notice Sample.loaded Sample.data
           "hospitals near Corniche").
  reflexivity.
Defined.

(** C9. While the loaded data is still absent a submitted query does
    nothing: the call returns at once with the globals, the map and the
    notices as they were, and so does any series of submissions. *)
Theorem query_before_load_is_noop :
  forall w : World,
    allAmenitiesData w = None ->
    (forall query, filterAndDisplayFeatures query w = Ret tt w)
    /\ (forall evs, Forall Submission evs -> run evs w = w).
Proof.
  intros w Hdata.
  assert (Hcall : forall query, filterAndDisplayFeatures query w = Ret tt w).
  { intros query. unfold filterAndDisplayFeatures, bind, get_allAmenitiesData.
    now rewrite Hdata. }
  split; [exact Hcall|].
  intros evs Hevs. unfold run.
  induction Hevs as [|ev evs Hev _ IH]; simpl; [reflexivity|].
  assert (handle ev w = w) as ->; [|exact IH].
  destruct ev as [d | | value | key value]; simpl in Hev; try contradiction.
  - simpl. now rewrite Hcall.
  - simpl. destruct (String.eqb key "Enter"); [now rewrite Hcall | reflexivity].
Qed.

Lemma query_before_load_is_noop_witness :
  allAmenitiesData initial_world = None
  /\ (forall query, filterAndDisplayFeatures query initial_world
                    = Ret tt initial_world)
  /\ (forall evs, Forall Submission evs -> run evs initial_world
                                          = initial_world).
Proof.
  split; [reflexivity|].
  apply (query_before_load_is_noop initial_world). reflexivity.
Defined.

(** C10. A marker is filled green exactly when the amenity type of its
    feature is "park"; every other amenity type gets one and the same
    red style, so two features that are not parks are drawn alike. *)
Theorem marker_style_two_valued :
  forall (f : Feature) (latlng : LatLng),
    (fillColor (options (pointToLayer f latlng)) = "green"
     <-> amenity_type (properties f) = "park")
    /\ (amenity_type (properties f) = "park" ->
        options (pointToLayer f latlng) = green_style)
    /\ (amenity_type (properties f) <> "park" ->
        options (pointToLayer f latlng) = red_style)
    /\ (forall (g : Feature) (latlng' : LatLng),
           amenity_type (properties f) <> "park" ->
           amenity_type (properties g) <> "park" ->
           options (pointToLayer f latlng)
           = options (pointToLayer g latlng')).
Proof.
  intros f latlng. unfold pointToLayer. simpl.
  assert (Hg : forall g : Feature,
             amenity_type (properties g) <> "park" ->
             String.eqb (amenity_type (properties g)) "park" = false)
    by (intros g; apply String.eqb_neq).
  destruct (String.eqb_spec (amenity_type (properties f)) "park") as [E|E].
  - repeat split; auto; try contradiction.
  - repeat split; auto; try discriminate; try contradiction.
    intros g latlng' _ Hng. now rewrite (Hg g Hng).
Qed.

(* ===================================================================== *)
(** ** Further properties of the script *)
(* ===================================================================== *)

(** The state a query leaves behind once the data is there. *)
Lemma query_outcome (w : World) (data : FeatureCollection) (query : string) :
  allAmenitiesData w = Some data ->
  exists out w',
    filterFeatures (interpretQuery query) (features data) = Normal out
    /\ filterAndDisplayFeatures query w = Ret tt w'
    /\ allAmenitiesData w' = Some data
    /\ currentLayer w'
       = Some (mkGeoJSONLayer (next_stamp w) (List.map draw out))
    /\ layers (leaflet_map w')
       = (cleared w ++ [mkGeoJSONLayer (next_stamp w) (List.map draw out)])%list
    /\ view (leaflet_map w')
       = match out with
         | [] => if String.eqb query "" then view (leaflet_map w)
                 else ViewAt ABU_DHABI_CENTER INITIAL_ZOOM
         | _ :: _ => ViewBounds (List.map position out) (50, 50)%Z
         end
    /\ alerts w'
       = match out with
         | [] => if String.eqb query "" then alerts w
                 else (alerts w ++ [NO_RESULTS_NOTICE])%list
         | _ :: _ => alerts w
         end
    /\ console w' = console w.
Proof.
  intros Hdata.
  destruct (filterFeatures_total (interpretQuery query) (features data))
    as (out & Hout).
  exists out. unfold filterAndDisplayFeatures, bind, get_allAmenitiesData.
  rewrite Hdata. unfold get_currentLayer, cleared.
  destruct (currentLayer w) as [old|]; cbn [map_removeLayer with_map ret];
    cbn [allAmenitiesData]; rewrite Hout; cbn [lift];
    (destruct out as [|f out];
     [ destruct (String.eqb query "") | ]);
    eexists; (split; [reflexivity|]); (split; [reflexivity|]);
    repeat split; try reflexivity; try exact Hdata;
    cbn; now rewrite List.map_map.
Qed.

Lemma handle_Click (query : string) (w : World) (w' : World) :
  filterAndDisplayFeatures query w = Ret tt w' ->
  handle (Click query) w = w'.
Proof. intros H. simpl. now rewrite H. Qed.

(** The [.then] callback of the load is the empty query run on the
    globals that hold the data; it never reaches [.catch]. *)
Lemma handle_FetchResolved (data : FeatureCollection) (w : World) :
  handle (FetchResolved data) w
  = world_of (filterAndDisplayFeatures "" (with_data data w)).
Proof.
  destruct (query_outcome (with_data data w) data "" eq_refl)
    as (out & w' & _ & Hrun & _).
  unfold handle, bind, set_allAmenitiesData. fold (with_data data w).
  now rewrite Hrun.
Qed.

Lemma empty_query_keeps_all (fs : list Feature) :
  filterFeatures (interpretQuery "") fs = Normal fs.
Proof. apply array_filter_all_kept. reflexivity. Qed.

Lemma submission_without_data (ev : Event) (w : World) :
  Submission ev -> allAmenitiesData w = None -> handle ev w = w.
Proof.
  intros Hev Hdata.
  assert (Hcall : forall query, filterAndDisplayFeatures query w = Ret tt w).
  { intros query. unfold filterAndDisplayFeatures, bind, get_allAmenitiesData.
    now rewrite Hdata. }
  destruct ev as [d | | value | key value]; simpl in Hev; try contradiction;
    simpl.
  - now rewrite Hcall.
  - destruct (String.eqb key "Enter"); [now rewrite Hcall | reflexivity].
Qed.

Lemma cleared_one_layer (w : World) : OneLayer w -> cleared w = [].
Proof.
  unfold OneLayer, cleared. intros H. rewrite H.
  destruct (currentLayer w) as [old|]; [|reflexivity].
  simpl. now rewrite Nat.eqb_refl.
Qed.

Lemma query_keeps_one_layer (query : string) (w : World) :
  OneLayer w -> OneLayer (world_of (filterAndDisplayFeatures query w)).
Proof.
  intros Hone. destruct (allAmenitiesData w) as [data|] eqn:Hdata.
  - destruct (query_outcome w data query Hdata)
      as (out & w' & _ & Hrun & _ & Hcur & Hlayers & _).
    rewrite Hrun. simpl. unfold OneLayer.
    now rewrite Hlayers, Hcur, (cleared_one_layer w Hone).
  - unfold filterAndDisplayFeatures, bind, get_allAmenitiesData.
    now rewrite Hdata.
Qed.

(** X1. Every event keeps the map and [currentLayer] in step: the map
    carries the current result layer and nothing else, so the markers of
    an earlier query are never left on the map. This holds in every state
    the page can reach. *)
Theorem single_result_layer :
  (forall (ev : Event) (w : World), OneLayer w -> OneLayer (handle ev w))
  /\ (forall evs : list Event, OneLayer (run evs initial_world)).
Proof.
  assert (Hstep : forall ev w, OneLayer w -> OneLayer (handle ev w)).
  { intros ev w Hone. destruct ev as [data | | value | key value].
    - rewrite handle_FetchResolved. now apply query_keeps_one_layer.
    - exact Hone.
    - now apply query_keeps_one_layer.
    - simpl. destruct (String.eqb key "Enter"); [|exact Hone].
      now apply query_keeps_one_layer. }
  split; [exact Hstep|].
  intros evs. unfold run.
  assert (Hgen : forall w, OneLayer w ->
                           OneLayer (fold_left (fun w ev => handle ev w) evs w)).
  { induction evs as [|ev evs IH]; intros w Hw; simpl; [exact Hw|].
    apply IH. now apply Hstep. }
  apply Hgen. reflexivity.
Qed.

(** X2. After a query on loaded data the markers of the current layer
    are the drawings of the filtered features, in their order: a marker is
    shown exactly for the features of the data that match the filters of
    the query. *)
Theorem shown_markers_are_the_matches :
  forall (w : World) (data : FeatureCollection) (query : string),
    allAmenitiesData w = Some data ->
    (exists out,
        filterFeatures (interpretQuery query) (features data) = Normal out
        /\ shown (handle (Click query) w) = List.map draw out)
    /\ (forall m : CircleMarker,
           In m (shown (handle (Click query) w)) <->
           exists f, In f (features data)
                     /\ FeatureMatches (interpretQuery query) f
                     /\ m = draw f).
Proof.
  intros w data query Hdata.
  destruct (query_outcome w data query Hdata)
    as (out & w' & Hout & Hrun & _ & Hcur & _).
  rewrite (handle_Click query w w' Hrun). unfold shown. rewrite Hcur.
  cbn [markers]. split; [now exists out|].
  destruct (query_result_is_selection query (features data))
    as (out' & Hout' & Hsel).
  assert (out' = out) as -> by congruence.
  intros m. rewrite List.in_map_iff. split.
  - intros (f & <- & Hf). exists f.
    apply (StableSelection_In _ _ _ Hsel) in Hf as [Hin Hmatch]. auto.
  - intros (f & Hin & Hmatch & ->). exists f. split; [reflexivity|].
    now apply (StableSelection_In _ _ _ Hsel).
Qed.

Lemma shown_markers_are_the_matches_witness :
  allAmenitiesData Sample.loaded = Some Sample.data
  /\ (exists out,
         filterFeatures (interpretQuery "Show parks") (features Sample.data)
         = Normal out
         /\ shown (handle (Click "Show parks") Sample.loaded)
            = List.map draw out)
  /\ (forall m : CircleMarker,
         In m (shown (handle (Click "Show parks") Sample.loaded)) <->
         exists f, In f (features Sample.data)
                   /\ FeatureMatches (interpretQuery "Show parks") f
                   /\ m = draw f).
Proof.
  split; [reflexivity|].
  exact (shown_markers_are_the_matches Sample.loaded Sample.data
           "Show parks" eq_refl).
Defined.

(** X3. When the data arrives, in whatever state, it is stored and every
    feature is drawn; no notice is raised and nothing is logged, also for
    an empty collection. The map is fitted to all features when there
    are some and keeps its view when there are none. *)
Theorem load_shows_everything :
  forall (data : FeatureCollection) (w : World),
    let w' := handle (FetchResolved data) w in
    allAmenitiesData w' = Some data
    /\ shown w' = List.map draw (features data)
    /\ alerts w' = alerts w
    /\ console w' = console w
    /\ view (leaflet_map w')
       = match features data with
         | [] => view (leaflet_map w)
         | _ :: _ => ViewBounds (List.map position (features data)) (50, 50)%Z
         end.
Proof.
  intros data w. cbv zeta. rewrite handle_FetchResolved.
  destruct (query_outcome (with_data data w) data "" eq_refl)
    as (out & w' & Hout & Hrun & Hd & Hcur & _ & Hview & Halerts & Hcons).
  rewrite empty_query_keeps_all in Hout. injection Hout as <-.
  rewrite Hrun. simpl world_of. unfold shown. rewrite Hcur, Hd, Hview.
  rewrite Halerts, Hcons. simpl.
  destruct (features data); auto.
Qed.

Lemma submissions_without_data (evs : list Event) (w : World) :
  Forall Submission evs -> allAmenitiesData w = None -> run evs w = w.
Proof.
  intros Hevs Hdata. unfold run.
  induction Hevs as [|ev evs Hev _ IH]; simpl; [reflexivity|].
  now rewrite (submission_without_data ev w Hev Hdata).
Qed.

(** X4. A failed load raises the notice "Could not load amenity data."
    and logs the error, and leaves the data, the current layer and the
    map as they were; when the data was absent, every query submitted
    afterwards changes nothing at all. *)
Theorem failed_load_leaves_page_inert :
  forall w : World,
    let w' := handle FetchRejected w in
    alerts w' = (alerts w ++ [LOAD_FAILED_NOTICE])%list
    /\ console w' = (console w ++ [LOAD_FAILED_LOG])%list
    /\ allAmenitiesData w' = allAmenitiesData w
    /\ currentLayer w' = currentLayer w
    /\ leaflet_map w' = leaflet_map w
    /\ (allAmenitiesData w = None ->
        forall evs, Forall Submission evs ->
                    run (FetchRejected :: evs) w = w').
Proof.
  intros w. cbv zeta. repeat split.
  intros Hdata evs Hevs.
  change (run (FetchRejected :: evs) w)
    with (run evs (handle FetchRejected w)).
  now apply submissions_without_data.
Qed.

Lemma submission_keeps_data (ev : Event) (w : World) :
  Submission ev ->
  allAmenitiesData (handle ev w) = allAmenitiesData w
  /\ console (handle ev w) = console w.
Proof.
  intros Hev.
  assert (Hq : forall query,
             allAmenitiesData (world_of (filterAndDisplayFeatures query w))
             = allAmenitiesData w
             /\ console (world_of (filterAndDisplayFeatures query w))
                = console w).
  { intros query. destruct (allAmenitiesData w) as [data|] eqn:Hdata.
    - destruct (query_outcome w data query Hdata)
        as (out & w' & _ & Hrun & Hd & _ & _ & _ & _ & Hcons).
      rewrite Hrun. simpl. now rewrite Hd, Hcons.
    - unfold filterAndDisplayFeatures, bind, get_allAmenitiesData.
      rewrite Hdata. simpl. auto. }
  destruct ev as [d | | value | key value]; simpl in Hev; try contradiction.
  - apply Hq.
  - simpl. destruct (String.eqb key "Enter"); [apply Hq | auto].
Qed.

(** X5. Queries read the loaded data and never write it: after any
    series of clicks and key presses [allAmenitiesData] is what it was,
    and nothing has been logged. *)
Theorem queries_never_change_data :
  forall (evs : list Event) (w : World),
    Forall Submission evs ->
    allAmenitiesData (run evs w) = allAmenitiesData w
    /\ console (run evs w) = console w.
Proof.
  intros evs w Hevs. revert w. unfold run.
  induction Hevs as [|ev evs Hev _ IH]; intros w; simpl; [auto|].
  destruct (IH (handle ev w)) as [Hd Hc].
  destruct (submission_keeps_data ev w Hev) as [Hd' Hc'].
  split; congruence.
Qed.

Lemma queries_never_change_data_witness :
  Forall Submission [Click "parks"; Keypress "Enter" "clinic in corniche"]
  /\ allAmenitiesData
       (run [Click "parks"; Keypress "Enter" "clinic in corniche"]
            Sample.loaded)
     = allAmenitiesData Sample.loaded
  /\ console
       (run [Click "parks"; Keypress "Enter" "clinic in corniche"]
            Sample.loaded)
     = console Sample.loaded.
Proof.
  assert (H : Forall Submission
                [Click "parks"; Keypress "Enter" "clinic in corniche"])
    by (repeat constructor).
  split; [exact H|].
  exact (queries_never_change_data _ Sample.loaded H).
Defined.

(** X6. What a query displays does not depend on the queries before it:
    in two states holding the same data the same query shows the same
    markers, and the same view unless the query is empty and the data has
    no features (then the view is left as it was). *)
Theorem display_depends_on_last_query :
  forall (w1 w2 : World) (data : FeatureCollection) (query : string),
    allAmenitiesData w1 = Some data ->
    allAmenitiesData w2 = Some data ->
    shown (handle (Click query) w1) = shown (handle (Click query) w2)
    /\ (query <> "" \/ features data <> [] ->
        view (leaflet_map (handle (Click query) w1))
        = view (leaflet_map (handle (Click query) w2))).
Proof.
  intros w1 w2 data query H1 H2.
  destruct (query_outcome w1 data query H1)
    as (out & w1' & Hout & Hrun1 & _ & Hcur1 & _ & Hview1 & _).
  destruct (query_outcome w2 data query H2)
    as (out' & w2' & Hout' & Hrun2 & _ & Hcur2 & _ & Hview2 & _).
  assert (out' = out) as -> by congruence.
  rewrite (handle_Click _ _ _ Hrun1), (handle_Click _ _ _ Hrun2).
  unfold shown. rewrite Hcur1, Hcur2, Hview1, Hview2. split; [reflexivity|].
  intros Hcase. destruct out as [|f out]; [|reflexivity].
  destruct (String.eqb_spec query "") as [->|Hq]; [|reflexivity].
  rewrite empty_query_keeps_all in Hout. injection Hout as Hfs.
  destruct Hcase as [Hq | Hne]; [now contradiction Hq | contradiction].
Qed.

Lemma display_depends_on_last_query_witness :
  allAmenitiesData Sample.loaded = Some Sample.data
  /\ allAmenitiesData (handle (Click "zoo near corniche") Sample.loaded)
     = Some Sample.data
  /\ shown (handle (Click "parks") Sample.loaded)
     = shown (handle (Click "parks")
                (handle (Click "zoo near corniche") Sample.loaded))
  /\ ("parks" <> "" \/ features Sample.data <> [] ->
      view (leaflet_map (handle (Click "parks") Sample.loaded))
      = view (leaflet_map
                (handle (Click "parks")
                   (handle (Click "zoo near corniche") Sample.loaded)))).
Proof.
  split; [reflexivity|]. split; [reflexivity|].
  exact (display_depends_on_last_query Sample.loaded
           (handle (Click "zoo near corniche") Sample.loaded)
           Sample.data "parks" eq_refl eq_refl).
Defined.

Lemma filterCallback_split (a l : option string) (f : Feature) :
  exists b1 b2,
    filterCallback (mkQueryFilter a None) f = Normal b1
    /\ filterCallback (mkQueryFilter None l) f = Normal b2
    /\ filterCallback (mkQueryFilter a l) f = Normal (b1 && b2).
Proof.
  unfold filterCallback. simpl.
  destruct (truthy_filter a && strict_neq (amenity_type (properties f)) a);
    simpl.
  - destruct (truthy_filter l); [|now exists false, true].
    destruct (area (properties f)) as [| |s]; simpl;
      try (now exists false, false).
    destruct (truthy s); simpl; [|now exists false, false].
    destruct (indexOf _ _ =? -1)%Z; [now exists false, false|].
    now exists false, true.
  - destruct (truthy_filter l); [|now exists true, true].
    destruct (area (properties f)) as [| |s]; simpl;
      try (now exists true, false).
    destruct (truthy s); simpl; [|now exists true, false].
    destruct (indexOf _ _ =? -1)%Z; [now exists true, false|].
    now exists true, true.
Qed.

Lemma array_filter_compose {A : Type} (cb cb1 cb2 : A -> Completion bool)
  (array : list A) :
  (forall x, exists b1 b2,
      cb1 x = Normal b1 /\ cb2 x = Normal b2 /\ cb x = Normal (b1 && b2)) ->
  exists mid out,
    array_filter cb1 array = Normal mid
    /\ array_filter cb2 mid = Normal out
    /\ array_filter cb array = Normal out.
Proof.
  intros Hcb.
  induction array as [|x rest (mid & out & Hmid & Hout & Hboth)]; simpl.
  - now exists [], [].
  - destruct (Hcb x) as (b1 & b2 & H1 & H2 & H12).
    rewrite H1, H12, Hmid, Hboth. simpl. destruct b1; simpl.
    + exists (x :: mid), (if b2 then x :: out else out).
      split; [reflexivity|]. simpl. rewrite H2, Hout. auto.
    + exists mid, out. auto.
Qed.

(** X7. The amenity check and the location check are two independent
    filters: filtering by both gives what filtering by the amenity alone
    and then by the location alone gives, and the same in the other
    order. *)
Theorem filters_compose :
  forall (a l : option string) (fs : list Feature),
    exists out,
      filterFeatures (mkQueryFilter a l) fs = Normal out
      /\ (exists mid,
             filterFeatures (mkQueryFilter a None) fs = Normal mid
             /\ filterFeatures (mkQueryFilter None l) mid = Normal out)
      /\ (exists mid,
             filterFeatures (mkQueryFilter None l) fs = Normal mid
             /\ filterFeatures (mkQueryFilter a None) mid = Normal out).
Proof.
  intros a l fs. unfold filterFeatures.
  destruct (array_filter_compose (filterCallback (mkQueryFilter a l))
              (filterCallback (mkQueryFilter a None))
              (filterCallback (mkQueryFilter None l)) fs)
    as (mid & out & Hmid & Hout & Hboth).
  { intros f. apply filterCallback_split. }
  destruct (array_filter_compose (filterCallback (mkQueryFilter a l))
              (filterCallback (mkQueryFilter None l))
              (filterCallback (mkQueryFilter a None)) fs)
    as (mid' & out' & Hmid' & Hout' & Hboth').
  { intros f. destruct (filterCallback_split a l f)
      as (b1 & b2 & H1 & H2 & H12).
    exists b2, b1. now rewrite andb_comm. }
  assert (out' = out) as -> by congruence.
  exists out. split; [exact Hboth|]. split; eauto.
Qed.

(** X8. A query in which an amenity keyword is recognized shows only
    features whose amenity type is exactly the filter value, which is
    "park" or "hospital": a feature of any other type, "clinic" included,
    is then never kept. *)
Theorem amenity_query_shows_only_its_type :
  forall (query a : string) (f : Feature),
    amenityFilter (interpretQuery query) = Some a ->
    filterCallback (interpretQuery query) f = Normal true ->
    amenity_type (properties f) = a /\ (a = "park" \/ a = "hospital").
Proof.
  intros query a f Ha Hkeep.
  assert (Hval : a = "park" \/ a = "hospital").
  { revert Ha. unfold interpretQuery, amenityFilter_of. simpl.
    destruct (test re_park _); [|destruct (test re_hospital _)];
      intros E; inversion E; auto. }
  split; [|exact Hval].
  destruct (String.eqb_spec (amenity_type (properties f)) a) as [E|E];
    [exact E|].
  exfalso. revert Hkeep. unfold filterCallback. rewrite Ha. simpl.
  apply String.eqb_neq in E. rewrite E.
  destruct Hval as [-> | ->]; simpl; discriminate.
Qed.

Lemma amenity_query_shows_only_its_type_witness :
  amenityFilter (interpretQuery "clinics") = Some "hospital"
  /\ filterCallback (interpretQuery "clinics") Sample.city_clinic
     = Normal true
  /\ amenity_type (properties Sample.city_clinic) = "hospital"
  /\ ("hospital" = "park" \/ "hospital" = "hospital").
Proof.
  split; [reflexivity|]. split; [reflexivity|].
  exact (amenity_query_shows_only_its_type "clinics" "hospital"
           Sample.city_clinic eq_refl eq_refl).
Defined.

Lemma Found_extend (r : regex) (a s b : string) :
  Found r s -> Found r (a ++ s ++ b).
Proof.
  intros (pre & m & post & -> & Hm).
  exists (a ++ pre), m, (post ++ b). split; [|exact Hm].
  now rewrite !append_assoc.
Qed.

Lemma test_extend (r : regex) (a s b : string) :
  test r s = true -> test r (a ++ s ++ b) = true.
Proof. rewrite !test_iff. apply Found_extend. Qed.

(** X9. Words added before or after a query never remove a constraint
    that was recognized: a location filter stays, a "park" filter stays,
    and a "hospital" filter stays or turns into "park". *)
Theorem extra_words_keep_constraints :
  forall query pre post : string,
    let longer := interpretQuery (pre ++ query ++ post) in
    (locationFilter (interpretQuery query) = Some "corniche" ->
     locationFilter longer = Some "corniche")
    /\ (amenityFilter (interpretQuery query) = Some "park" ->
        amenityFilter longer = Some "park")
    /\ (amenityFilter (interpretQuery query) = Some "hospital" ->
        amenityFilter longer = Some "hospital"
        \/ amenityFilter longer = Some "park").
Proof.
  intros query pre post. cbv zeta. unfold interpretQuery. simpl.
  rewrite !toLowerCase_append.
  unfold amenityFilter_of, locationFilter_of.
  pose proof (test_extend re_park (toLowerCase pre) (toLowerCase query)
                (toLowerCase post)) as Hp.
  pose proof (test_extend re_hospital (toLowerCase pre) (toLowerCase query)
                (toLowerCase post)) as Hh.
  pose proof (test_extend re_location (toLowerCase pre) (toLowerCase query)
                (toLowerCase post)) as Hl.
  split; [|split].
  - destruct (test re_location (toLowerCase query)); [|discriminate].
    now rewrite Hl.
  - destruct (test re_park (toLowerCase query)).
    + now rewrite Hp.
    + destruct (test re_hospital (toLowerCase query)); discriminate.
  - destruct (test re_park (toLowerCase query)); [discriminate|].
    destruct (test re_hospital (toLowerCase query)); [|discriminate].
    intros _. rewrite Hh by reflexivity.
    destruct (test re_park _); auto.
Qed.

(** X10. The handler of a query returns normally in every state of the
    page and for every query: the filter raises no exception whatever the
    filters and whatever the areas of the features (null, missing, empty
    or a text), because the method call on the area is guarded. *)
Theorem query_handler_never_throws :
  (forall (qf : QueryFilter) (fs : list Feature),
      exists out, filterFeatures qf fs = Normal out)
  /\ (forall (query : string) (w : World),
         exists w', filterAndDisplayFeatures query w = Ret tt w').
Proof.
  split; [apply filterFeatures_total|].
  intros query w. destruct (allAmenitiesData w) as [data|] eqn:Hdata.
  - destruct (query_outcome w data query Hdata) as (out & w' & _ & Hrun & _).
    now exists w'.
  - exists w. unfold filterAndDisplayFeatures, bind, get_allAmenitiesData.
    now rewrite Hdata.
Qed.

Lemma query_notice (query : string) (w : World) :
  alerts (world_of (filterAndDisplayFeatures query w)) = alerts w
  \/ alerts (world_of (filterAndDisplayFeatures query w))
     = (alerts w ++ [NO_RESULTS_NOTICE])%list.
Proof.
  destruct (allAmenitiesData w) as [data|] eqn:Hdata.
  - destruct (query_outcome w data query Hdata)
      as (out & w' & _ & Hrun & _ & _ & _ & _ & Halerts & _).
    rewrite Hrun. simpl. rewrite Halerts.
    destruct out; [destruct (String.eqb query "")|]; auto.
  - unfold filterAndDisplayFeatures, bind, get_allAmenitiesData.
    rewrite Hdata. simpl. auto.
Qed.

Lemma event_notice (ev : Event) (w : World) :
  exists extra,
    alerts (handle ev w) = (alerts w ++ extra)%list
    /\ (extra = [] \/ extra = [NO_RESULTS_NOTICE]
        \/ extra = [LOAD_FAILED_NOTICE]).
Proof.
  assert (Hq : forall query,
             exists extra,
               alerts (world_of (filterAndDisplayFeatures query w))
               = (alerts w ++ extra)%list
               /\ (extra = [] \/ extra = [NO_RESULTS_NOTICE]
                   \/ extra = [LOAD_FAILED_NOTICE])).
  { intros query. destruct (query_notice query w) as [H | H].
    - exists []. rewrite List.app_nil_r. auto.
    - exists [NO_RESULTS_NOTICE]. auto. }
  destruct ev as [data | | value | key value].
  - rewrite handle_FetchResolved.
    destruct (query_notice "" (with_data data w)) as [H | H].
    + exists []. rewrite List.app_nil_r. auto.
    + exists [NO_RESULTS_NOTICE]. auto.
  - exists [LOAD_FAILED_NOTICE]. auto.
  - apply Hq.
  - simpl. destruct (String.eqb key "Enter"); [apply Hq|].
    exists []. rewrite List.app_nil_r. auto.
Qed.

(** X11. Notices are only ever added, at most one per event, and the
    only texts ever shown are "No results found for your query." and
    "Could not load amenity data.". *)
Theorem notices_only_grow :
  forall (evs : list Event) (w : World),
    exists extra,
      alerts (run evs w) = (alerts w ++ extra)%list
      /\ Forall (fun m => m = NO_RESULTS_NOTICE \/ m = LOAD_FAILED_NOTICE)
                extra
      /\ (List.length extra <= List.length evs)%nat.
Proof.
  intros evs. unfold run.
  induction evs as [|ev evs IH]; intros w; simpl.
  - exists []. rewrite List.app_nil_r. auto.
  - destruct (IH (handle ev w)) as (rest & Hrest & Hall & Hlen).
    destruct (event_notice ev w) as (extra & Hextra & Hkind).
    exists (extra ++ rest)%list. rewrite Hrest, Hextra, List.app_assoc.
    split; [reflexivity|]. split.
    + apply Forall_app. split; [|exact Hall].
      destruct Hkind as [-> | [-> | ->]]; constructor; auto.
    + rewrite List.length_app.
      destruct Hkind as [-> | [-> | ->]]; simpl; lia.
Qed.

Lemma no_keyword_by_test (query : string) :
  test re_park (toLowerCase query) = false ->
  test re_hospital (toLowerCase query) = false ->
  test re_location (toLowerCase query) = false ->
  NoKeyword query.
Proof.
  intros Hp Hh Hl. unfold NoKeyword. cbv zeta.
  pose proof (test_park (toLowerCase query)) as Tp.
  pose proof (test_hospital (toLowerCase query)) as Th.
  pose proof (test_location (toLowerCase query)) as Tl.
  rewrite Hp in Tp. rewrite Hh in Th. rewrite Hl in Tl.
  repeat split; intros H.
  - apply Tp in H. discriminate.
  - assert (false = true) by (apply Th; now left). discriminate.
  - assert (false = true) by (apply Th; now right). discriminate.
  - apply Tl in H. discriminate.
Qed.

(** X12. On loaded data a query without any recognized keyword draws
    every feature of the data; when the data has features the map is
    fitted to all of them and no notice is raised. *)
Theorem keywordless_query_shows_all :
  forall (w : World) (data : FeatureCollection) (query : string),
    allAmenitiesData w = Some data ->
    NoKeyword query ->
    let w' := handle (Click query) w in
    shown w' = List.map draw (features data)
    /\ (features data <> [] ->
        alerts w' = alerts w
        /\ view (leaflet_map w')
           = ViewBounds (List.map position (features data)) (50, 50)%Z).
Proof.
  intros w data query Hdata Hno. cbv zeta.
  destruct (query_outcome w data query Hdata)
    as (out & w' & Hout & Hrun & _ & Hcur & _ & Hview & Halerts & _).
  rewrite (no_keyword_empty_filter query Hno) in Hout.
  assert (out = features data) as ->.
  { assert (H : filterFeatures emptyFilter (features data)
                = Normal (features data))
      by (apply array_filter_all_kept; reflexivity).
    congruence. }
  rewrite (handle_Click _ _ _ Hrun). unfold shown. rewrite Hcur.
  split; [reflexivity|].
  intros Hne. rewrite Halerts, Hview.
  destruct (features data); [contradiction | auto].
Qed.

Lemma keywordless_query_shows_all_witness :
  allAmenitiesData Sample.loaded = Some Sample.data
  /\ NoKeyword "schools at Al Matar"
  /\ shown (handle (Click "schools at Al Matar") Sample.loaded)
     = List.map draw (features Sample.data)
  /\ (features Sample.data <> [] ->
      alerts (handle (Click "schools at Al Matar") Sample.loaded)
      = alerts Sample.loaded
      /\ view (leaflet_map
                 (handle (Click "schools at Al Matar") Sample.loaded))
         = ViewBounds (List.map position (features Sample.data))
                      (50, 50)%Z).
Proof.
  assert (Hno : NoKeyword "schools at Al Matar")
    by (apply no_keyword_by_test; reflexivity).
  split; [reflexivity|]. split; [exact Hno|].
  exact (keywordless_query_shows_all Sample.loaded Sample.data
           "schools at Al Matar" eq_refl Hno).
Defined.

Lemma Found_RLit (w s : string) : Found (RLit w) s <-> Substring w s.
Proof.
  unfold Found, Substring. split.
  - intros (pre & m & post & -> & H). apply Matches_RLit in H as ->. eauto.
  - intros (pre & post & ->). exists pre, w, post.
    split; [reflexivity | now apply Matches_RLit].
Qed.

(** X13. The optional plural in the two amenity patterns changes
    nothing: on every string [/(parks?)/] tests as [/park/] does and
    [/(hospitals?|clinics?)/] as [/hospital|clinic/] does. *)
Theorem plural_is_redundant :
  forall s : string,
    test re_park s = test re_park_bare s
    /\ test re_hospital s = test re_hospital_bare s.
Proof.
  intros s. split; apply Bool.eq_true_iff_eq.
  - rewrite test_park. unfold re_park_bare.
    now rewrite test_iff, Found_RLit.
  - rewrite test_hospital. unfold re_hospital_bare.
    now rewrite test_iff, Found_RAlt, !Found_RLit.
Qed.

(** X14. Whenever a query on loaded data shows at least one marker, the
    map is fitted, with a padding of 50 by 50, to the positions of
    exactly the markers shown, and no notice is raised. *)
Theorem results_are_framed :
  forall (w : World) (data : FeatureCollection) (query : string),
    allAmenitiesData w = Some data ->
    shown (handle (Click query) w) <> [] ->
    view (leaflet_map (handle (Click query) w))
    = ViewBounds (List.map marker_latlng (shown (handle (Click query) w)))
                 (50, 50)%Z
    /\ alerts (handle (Click query) w) = alerts w.
Proof.
  intros w data query Hdata.
  destruct (query_outcome w data query Hdata)
    as (out & w' & _ & Hrun & _ & Hcur & _ & Hview & Halerts & _).
  rewrite (handle_Click _ _ _ Hrun). unfold shown. rewrite Hcur.
  cbn [markers]. intros Hshown. rewrite Hview, Halerts.
  destruct out as [|f out]; [now contradiction Hshown|].
  split; [|reflexivity]. f_equal. now rewrite List.map_map.
Qed.

Lemma results_are_framed_witness :
  allAmenitiesData Sample.loaded = Some Sample.data
  /\ shown (handle (Click "parks in Corniche") Sample.loaded) <> []
  /\ view (leaflet_map (handle (Click "parks in Corniche") Sample.loaded))
     = ViewBounds
         (List.map marker_latlng
            (shown (handle (Click "parks in Corniche") Sample.loaded)))
         (50, 50)%Z
  /\ alerts (handle (Click "parks in Corniche") Sample.loaded)
     = alerts Sample.loaded.
Proof.
  assert (H : shown (handle (Click "parks in Corniche") Sample.loaded) <> [])
    by discriminate.
  split; [reflexivity|]. split; [exact H|].
  exact (results_are_framed Sample.loaded Sample.data "parks in Corniche"
           eq_refl H).
Defined.
